(** * mlpack: command-line binding, image resizing and the
      linear-regression prediction driver

    A shallow embedding of three pieces of the library and the properties
    that its design document states about them:

    - [bindings/cli/parse_command_line.hpp]  ([CmdLine.ParseCommandLine]),
    - [core/data/image_resize_crop.hpp]      ([ImageResize.ResizeImages]),
    - [methods/linear_regression/linear_regression_predict_main.cpp]
                                             ([LinRegPredict.BINDING_FUNCTION]).

    Unsigned machine integers ([size_t], [arma::uword]) are integers in [Z]
    reduced modulo [2^64]; [std::map] is a key-ordered association list, so
    that iteration visits the entries in the order the C++ container does. *)

From Stdlib Require Import String Ascii List ZArith QArith Bool Lia.
Import ListNotations.
Close Scope Q_scope.
Local Open Scope list_scope.
Local Open Scope string_scope.

(** ** Unsigned 64-bit arithmetic *)

Definition size_t_modulus : Z := 2 ^ 64.

Definition wrap (z : Z) : Z := z mod size_t_modulus.

Definition size_mul (a b : Z) : Z := wrap (a * b).

Definition size_sub (a b : Z) : Z := wrap (a - b).

(** ** [std::map<std::string, V>] *)

Module StdMap.
Section WithValue.
Context {V : Type}.

Definition t : Type := list (string * V).

Definition empty : t := [].

Fixpoint find (k : string) (m : t) : option V :=
  match m with
  | [] => None
  | (k', v) :: m' => if String.eqb k k' then Some v else find k m'
  end.

(** [m[k] = v] when the key exists, [m.emplace(k, v)] otherwise; the
    entries stay ordered by key. *)
Fixpoint insert (k : string) (v : V) (m : t) : t :=
  match m with
  | [] => [(k, v)]
  | (k', v') :: m' =>
      match String.compare k k' with
      | Eq => (k, v) :: m'
      | Lt => (k, v) :: (k', v') :: m'
      | Gt => (k', v') :: insert k v m'
      end
  end.

(** [operator[]]: the mapped value, value-initialised and inserted when the
    key is missing. *)
Definition index (dflt : V) (k : string) (m : t) : V * t :=
  match find k m with
  | Some v => (v, m)
  | None => (dflt, insert k dflt m)
  end.
End WithValue.
Arguments t : clear implicits.
End StdMap.

(** ** The command-line binding *)

Module CmdLine.

(** The payload of a parameter ([boost::any] in the library), restricted to
    the types that the command-line tests exercise. *)
Inductive AnyValue : Type :=
| ABool (b : bool)
| AInt (z : Z)
| ADouble (q : Q)
| AString (s : string)
| AStrings (l : list string)
| AEmpty.

(** Modelled from the spec: the [util::ParamData] structure (its header is
    not among the sources): canonical name, description, type tag, short
    alias (empty when there is none), the "was passed" mark, the "required"
    mark, whether it is an input, the current value and the printable name of
    its C++ type. *)
Record ParamData : Type := mkParamData {
  name : string;
  desc : string;
  tname : string;
  alias : string;
  wasPassed : bool;
  required : bool;
  input : bool;
  value : AnyValue;
  cppType : string
}.

Definition set_wasPassed (b : bool) (d : ParamData) : ParamData :=
  mkParamData (name d) (desc d) (tname d) (alias d) b (required d) (input d)
              (value d) (cppType d).

(** What [parameters[key]] creates for a missing key: a value-initialised
    structure. *)
Definition ParamData_zero : ParamData :=
  mkParamData "" "" "" "" false false false AEmpty "".

(** The process-wide [CMD] singleton. *)
Record CMD : Type := mkCMD {
  parameters : StdMap.t ParamData;
  aliases : StdMap.t string;
  didParse : bool;
  programName : string
}.

Definition ClearSettings (programName : string) : CMD :=
  mkCMD StdMap.empty StdMap.empty false programName.

(** Modelled from the spec: [CMD::Add] ("Register"), absent from the sources:
    inserts the parameter under its canonical name and records its alias;
    fails when the canonical name is already present, or the alias is. *)
Definition Add (d : ParamData) (c : CMD) : option CMD :=
  match StdMap.find (name d) (parameters c) with
  | Some _ => None
  | None =>
      if String.eqb (alias d) "" then
        Some (mkCMD (StdMap.insert (name d) d (parameters c)) (aliases c)
                    (didParse c) (programName c))
      else
        match StdMap.find (alias d) (aliases c) with
        | Some _ => None
        | None =>
            Some (mkCMD (StdMap.insert (name d) d (parameters c))
                        (StdMap.insert (alias d) (name d) (aliases c))
                        (didParse c) (programName c))
        end
  end.

Fixpoint AddAll (ds : list ParamData) (c : CMD) : CMD :=
  match ds with
  | [] => c
  | d :: ds' => AddAll ds' (match Add d c with Some c' => c' | None => c end)
  end.

(** Modelled from the spec: the alias resolution of [CMD::HasParam] and
    [CMD::GetParam], absent from the sources: the given string is looked up
    in the alias table first. *)
Definition resolve (c : CMD) (key : string) : string :=
  match StdMap.find key (aliases c) with
  | Some canonical => canonical
  | None => key
  end.

(** Modelled from the spec: [CMD::HasParam], absent from the sources: whether
    the resolved parameter was passed; [None] is the "unknown parameter"
    failure. *)
Definition HasParam (c : CMD) (key : string) : option bool :=
  option_map wasPassed (StdMap.find (resolve c key) (parameters c)).

(** Modelled from the spec: [CMD::GetParam], absent from the sources: the
    stored value of the resolved parameter. *)
Definition GetParam (c : CMD) (key : string) : option AnyValue :=
  option_map value (StdMap.find (resolve c key) (parameters c)).

(** *** Observable behaviour *)

(** The messages sent to [Log::Fatal]. *)
Inductive FatalMsg : Type :=
| ParseException (what : string)
| UnknownParameter (key : string)
| RequiredUndefined (boostName : string).

Definition fatal_text (m : FatalMsg) : string :=
  match m with
  | ParseException what =>
      "Caught exception from parsing command line: " ++ what
  | UnknownParameter key =>
      "Parameter '--" ++ key ++ "' does not exist in this program."
  | RequiredUndefined boostName =>
      "Required option --" ++ boostName ++ " is undefined."
  end.

(** What the function writes: lines on [std::cout], calls of the help
    printer, lines on [Log::Debug]. *)
Inductive Event : Type :=
| CoutAppSize (n : nat)
| CoutOption (optionName : string)
| CoutVersion (program version : string)
| PrintHelp (topic : option string)
| LogDebug (line : string).

Record Process : Type := mkProcess {
  registry : CMD;
  Info_ignoreInput : bool;
  trace : list Event
}.

(** How a call ends: it returns, the process exits, [Log::Fatal] fires (the
    message is printed and [std::runtime_error] leaves the function), or
    another C++ exception leaves the function. *)
Inductive Outcome (A : Type) : Type :=
| Returned (a : A)
| Exited (code : Z)
| FatalError (m : FatalMsg)
| Thrown (what : string).
Arguments Returned {A} a.
Arguments Exited {A} code.
Arguments FatalError {A} m.
Arguments Thrown {A} what.

Definition Run (A : Type) : Type := Process -> Outcome A * Process.

Definition ret {A : Type} (a : A) : Run A := fun p => (Returned a, p).

Definition bind {A B : Type} (c : Run A) (k : A -> Run B) : Run B :=
  fun p =>
    match c p with
    | (Returned a, p') => k a p'
    | (Exited code, p') => (Exited code, p')
    | (FatalError m, p') => (FatalError m, p')
    | (Thrown what, p') => (Thrown what, p')
    end.

Declare Scope run_scope.
Delimit Scope run_scope with run.
Notation "x <- c ;; k" := (bind c (fun x => k))
  (at level 61, c at next level, right associativity) : run_scope.
Notation "c ;; k" := (bind c (fun _ => k))
  (at level 61, right associativity) : run_scope.
Local Open Scope run_scope.

Definition exit {A : Type} (code : Z) : Run A := fun p => (Exited code, p).

Definition fatal {A : Type} (m : FatalMsg) : Run A :=
  fun p => (FatalError m, p).

Definition throw {A : Type} (what : string) : Run A :=
  fun p => (Thrown what, p).

Definition gets {A : Type} (f : Process -> A) : Run A :=
  fun p => (Returned (f p), p).

Definition modify (f : Process -> Process) : Run unit :=
  fun p => (Returned tt, f p).

Definition emit (e : Event) : Run unit :=
  modify (fun p => mkProcess (registry p) (Info_ignoreInput p) (trace p ++ [e])).

Definition set_ignoreInput (b : bool) : Run unit :=
  modify (fun p => mkProcess (registry p) b (trace p)).

Definition with_parameters (ps : StdMap.t ParamData) (p : Process) : Process :=
  mkProcess (mkCMD ps (aliases (registry p)) (didParse (registry p))
                   (programName (registry p)))
            (Info_ignoreInput p) (trace p).

Definition mark_didParse (p : Process) : Process :=
  mkProcess (mkCMD (parameters (registry p)) (aliases (registry p)) true
                   (programName (registry p)))
            (Info_ignoreInput p) (trace p).

(** [CMD::HasParam] as a call: an unknown name is fatal. *)
Definition CMD_HasParam (key : string) : Run bool :=
  fun p =>
    match HasParam (registry p) key with
    | Some b => (Returned b, p)
    | None => (FatalError (UnknownParameter key), p)
    end.

(** [CMD::GetParam<std::string>]: an unknown name is fatal, a value of
    another type makes the cast throw. *)
Definition CMD_GetParam_string (key : string) : Run string :=
  fun p =>
    match GetParam (registry p) key with
    | Some (AString s) => (Returned s, p)
    | Some _ => (Thrown "bad any_cast", p)
    | None => (FatalError (UnknownParameter key), p)
    end.

(** *** The collaborators of [ParseCommandLine] *)

(** The argument parser ([CLI::App] and its [CLI::Option]s), an external
    library, through the five members that the function calls. [app_parse]
    answers the parsed application or the [what()] of the [CLI::ParseError]
    it throws; [app_count] answers nothing when the parser has no option of
    that name (it throws [OptionNotFound]). *)
Class Parser : Type := {
  App : Type;
  Opt : Type;
  app_new : App;
  app_parse : App -> list string -> App + string;
  app_count_all : App -> nat;
  app_get_options : App -> list Opt;
  get_name : Opt -> string;
  app_count : App -> string -> option nat
}.

(** One entry of the dispatch table [functionMap], for one type tag: the
    operations that the function calls through it. Both receive the
    parameter by constant reference. *)
Record TypeOps {P : Parser} : Type := mkTypeOps {
  AddToPO : ParamData -> App -> App;
  MapParameterName : ParamData -> string
}.
Arguments TypeOps P : clear implicits.

Section ParseCommandLine.
Context {P : Parser}.
Variable functionMap : string -> TypeOps P.
Variable GetVersion : string.

(** Lines 45-57: one option definition per registered parameter, and the
    map from the name used on the command line to the canonical name. The
    loop variable is a copy of the map entry. *)
Definition AddOption (acc : App * StdMap.t string) (it : string * ParamData)
  : App * StdMap.t string :=
  let d := snd it in
  let app := AddToPO (functionMap (tname d)) d (fst acc) in
  let boostName := MapParameterName (functionMap (tname d)) d in
  (app, StdMap.insert boostName (name d) (snd acc)).

Definition BuildOptions (ps : StdMap.t ParamData) : App * StdMap.t string :=
  fold_left AddOption ps (app_new, StdMap.empty).

(** Lines 115-123, one iteration: the option's name is printed, looked up
    in the name map and the parameter of that identifier is marked; both
    lookups are [operator[]]. The call of [SetParam] is commented out. *)
Definition MarkOption (acc : StdMap.t string * Process) (option : Opt)
  : StdMap.t string * Process :=
  let boostNameMap := fst acc in
  let p := snd acc in
  let p := mkProcess (registry p) (Info_ignoreInput p)
                     (trace p ++ [CoutOption (get_name option)]) in
  let '(identifier, boostNameMap) :=
    StdMap.index "" (get_name option) boostNameMap in
  let '(param, ps) :=
    StdMap.index ParamData_zero identifier (parameters (registry p)) in
  (boostNameMap,
   with_parameters (StdMap.insert identifier (set_wasPassed true param) ps) p).

Definition MarkOptions (options : list Opt) (boostNameMap : StdMap.t string)
  (p : Process) : Process :=
  snd (fold_left MarkOption options (boostNameMap, p)).

(** Lines 134-170. *)
Definition HandleMetaOptions : Run unit :=
  version <- CMD_HasParam "version" ;;
  if version : bool then
    program <- gets (fun p => programName (registry p)) ;;
    emit (CoutVersion program GetVersion) ;;
    exit 0
  else
    help <- CMD_HasParam "help" ;;
    if help : bool then
      set_ignoreInput false ;;
      emit (PrintHelp None) ;;
      exit 0
    else
      info <- CMD_HasParam "info" ;;
      if info : bool then
        set_ignoreInput false ;;
        str <- CMD_GetParam_string "info" ;;
        if negb (String.eqb str "") then
          emit (PrintHelp (Some str)) ;;
          exit 0
        else
          emit (PrintHelp None) ;;
          exit 0
      else ret tt.

(** Lines 182-199. *)
Fixpoint CheckRequired (app : App) (ps : StdMap.t ParamData) : Run unit :=
  match ps with
  | [] => ret tt
  | (_, d) :: rest =>
      if required d then
        let boostName := MapParameterName (functionMap (tname d)) d in
        match app_count app boostName with
        | None => throw "OptionNotFound"
        | Some O => fatal (RequiredUndefined boostName)
        | Some (S _) => CheckRequired app rest
        end
      else CheckRequired app rest
  end.

Definition TryParse (app : App) (argv : list string) : Run App :=
  match app_parse app argv with
  | inl app' => ret app'
  | inr what => fatal (ParseException what)
  end.

Definition ParseCommandLine (argv : list string) : Run unit :=
  ps <- gets (fun p => parameters (registry p)) ;;
  let '(app, boostNameMap) := BuildOptions ps in
  modify mark_didParse ;;
  app <- TryParse app argv ;;
  emit (CoutAppSize (app_count_all app)) ;;
  modify (MarkOptions (app_get_options app) boostNameMap) ;;
  HandleMetaOptions ;;
  emit (LogDebug "Compiled with debugging symbols.") ;;
  verbose <- CMD_HasParam "verbose" ;;
  (if verbose : bool then set_ignoreInput false else ret tt) ;;
  ps <- gets (fun p => parameters (registry p)) ;;
  CheckRequired app ps.

(** Two stages of the function, named for the statements about it: the
    process when the marking loop (lines 114-123) has run after a parse
    that answered [app], and the rest of the function (lines 134-199). *)
Definition Marked (app : App) (p : Process) : Process :=
  let p1 := mark_didParse p in
  let p2 := mkProcess (registry p1) (Info_ignoreInput p1)
                      (trace p1 ++ [CoutAppSize (app_count_all app)]) in
  MarkOptions (app_get_options app)
              (snd (BuildOptions (parameters (registry p)))) p2.

Definition Validate (app : App) : Run unit :=
  HandleMetaOptions ;;
  emit (LogDebug "Compiled with debugging symbols.") ;;
  verbose <- CMD_HasParam "verbose" ;;
  (if verbose : bool then set_ignoreInput false else ret tt) ;;
  ps <- gets (fun p => parameters (registry p)) ;;
  CheckRequired app ps.

End ParseCommandLine.

(** A command leaves the registry alone. *)
Definition keeps_registry {A : Type} (c : Run A) : Prop :=
  forall p, registry (snd (c p)) = registry p.

(** An entry is what it was, possibly with the "was passed" mark set. *)
Definition marked_of (d d' : ParamData) : Prop :=
  d' = d \/ d' = set_wasPassed true d.

(** *** A reference argument parser

    A small parser with the conventions of the library that the function is
    written against: an option has a long name and possibly a one-letter
    alias; it is a flag, takes one value, or takes any number of values;
    [get_name] reports the long name with its two dashes; [get_options]
    lists every defined option, supplied or not; [count] is the number of
    results stored for an option and accepts the name with or without its
    dashes; an unknown token, a missing value and a second value for a
    one-valued option are parse errors. It instantiates [Parser] for the
    closed examples below; the general statements hold for every parser.
    A second instance, which differs only in reporting option names
    without dashes, shows what does not depend on that convention. *)

Module RefParser.

Inductive Arity : Type := Flag | OneValue | ManyValues.

Inductive Naming : Type := WithDashes | Bare.

Record OptionDef : Type := mkOptionDef {
  lname : string;
  sname : string;
  arity : Arity;
  results : list string
}.

Definition is_option_token (tok : string) : bool := String.prefix "-" tok.

Definition token_matches (tok : string) (o : OptionDef) : bool :=
  if String.prefix "--" tok then
    String.eqb (String.substring 2 (String.length tok - 2) tok) (lname o)
  else if String.prefix "-" tok then
    negb (String.eqb (sname o) "")
    && String.eqb (String.substring 1 (String.length tok - 1) tok) (sname o)
  else false.

Definition name_matches (nm : string) (o : OptionDef) : bool :=
  if is_option_token nm then token_matches nm o
  else String.eqb nm (lname o)
       || (negb (String.eqb (sname o) "") && String.eqb nm (sname o)).

Fixpoint lookup (tok : string) (app : list OptionDef) : option OptionDef :=
  match app with
  | [] => None
  | o :: app' => if token_matches tok o then Some o else lookup tok app'
  end.

Fixpoint store (ln : string) (v : string) (app : list OptionDef)
  : list OptionDef :=
  match app with
  | [] => []
  | o :: app' =>
      if String.eqb ln (lname o)
      then mkOptionDef (lname o) (sname o) (arity o) (results o ++ [v]) :: app'
      else o :: store ln v app'
  end.

(** [cur] is the option that is accepting values, with whether it still
    needs one. *)
Fixpoint parse_tokens (toks : list string) (cur : option (string * bool))
  (app : list OptionDef) : list OptionDef + string :=
  match toks with
  | [] =>
      match cur with
      | Some (ln, true) => inr ("--" ++ ln ++ ": 1 required TEXT missing")
      | _ => inl app
      end
  | tok :: toks' =>
      if is_option_token tok then
        match cur with
        | Some (ln, true) => inr ("--" ++ ln ++ ": 1 required TEXT missing")
        | _ =>
            match lookup tok app with
            | None => inr ("The following argument was not expected: " ++ tok)
            | Some o =>
                match arity o with
                | Flag => parse_tokens toks' None (store (lname o) "true" app)
                | OneValue => parse_tokens toks' (Some (lname o, true)) app
                | ManyValues => parse_tokens toks' (Some (lname o, false)) app
                end
            end
        end
      else
        match cur with
        | Some (ln, true) => parse_tokens toks' None (store ln tok app)
        | Some (ln, false) => parse_tokens toks' cur (store ln tok app)
        | None => inr ("The following argument was not expected: " ++ tok)
        end
  end.

Fixpoint first_overfull (app : list OptionDef) : option OptionDef :=
  match app with
  | [] => None
  | o :: app' =>
      match arity o with
      | OneValue =>
          if Nat.ltb 1 (List.length (results o)) then Some o
          else first_overfull app'
      | _ => first_overfull app'
      end
  end.

Definition parse (app : list OptionDef) (argv : list string)
  : list OptionDef + string :=
  match parse_tokens (List.tl argv) None app with
  | inl app' =>
      match first_overfull app' with
      | Some o => inr ("--" ++ lname o ++ ": At most 1 required")
      | None => inl app'
      end
  | inr what => inr what
  end.

Fixpoint count (app : list OptionDef) (nm : string) : option nat :=
  match app with
  | [] => None
  | o :: app' =>
      if name_matches nm o then Some (List.length (results o))
      else count app' nm
  end.

Definition count_all (app : list OptionDef) : nat :=
  fold_left (fun n o => n + List.length (results o))%nat app O.

Definition reported_name (naming : Naming) (o : OptionDef) : string :=
  match naming with
  | WithDashes => "--" ++ lname o
  | Bare => lname o
  end.

Definition parser (naming : Naming) : Parser := {|
  App := list OptionDef;
  Opt := OptionDef;
  app_new := [];
  app_parse := parse;
  app_count_all := count_all;
  app_get_options := fun app => app;
  get_name := reported_name naming;
  app_count := count
|}.

(** Modelled from the spec: the dispatch operations [AddToPO] and
    [MapParameterName], absent from the sources: the first adds an option
    definition for the parameter to the parser, the second computes the name
    used on the command line, which for matrix and model parameters is the
    canonical name followed by [_file]. *)
Definition external_name (tag : string) (d : ParamData) : string :=
  if String.eqb tag "matrix" || String.eqb tag "model"
  then name d ++ "_file" else name d.

Definition arity_of (tag : string) : Arity :=
  if String.eqb tag "bool" then Flag
  else if String.eqb tag "vector" then ManyValues
  else OneValue.

Definition functionMap (naming : Naming) (tag : string)
  : TypeOps (parser naming) :=
  mkTypeOps (parser naming)
    (fun d app =>
       (app ++ [mkOptionDef (external_name tag d) (alias d) (arity_of tag) []])
       %list)
    (external_name tag).

End RefParser.

(** *** The registries of the header and of the test suite *)

(** Modelled from the spec: the registration macros [PARAM_FLAG],
    [PARAM_STRING_IN], [PARAM_DOUBLE_IN] and [PARAM_DOUBLE_IN_REQ], absent
    from the sources: an input parameter with the given name, description
    and alias, not passed, holding its default value; required for the last
    one. *)
Definition PARAM_FLAG (id description al : string) : ParamData :=
  mkParamData id description "bool" al false false true (ABool false) "bool".

Definition PARAM_STRING_IN (id description al def : string) : ParamData :=
  mkParamData id description "string" al false false true (AString def)
              "string".

Definition PARAM_DOUBLE_IN (id description al : string) (def : Q) : ParamData :=
  mkParamData id description "double" al false false true (ADouble def)
              "double".

Definition PARAM_DOUBLE_IN_REQ (id description al : string) : ParamData :=
  mkParamData id description "double" al false true true (ADouble (0 # 1))
              "double".

(** Lines 26-31 of the header: the parameters "included in every program".
    The registration of [help] is commented out. *)
Definition header_parameters : list ParamData :=
  [ PARAM_STRING_IN "info" "Print help on a specific option." "" "";
    PARAM_FLAG "verbose"
      ("Display informational messages and the full list of "
       ++ "parameters and timers at the end of execution.") "v";
    PARAM_FLAG "version" "Display the version of mlpack." "" ].

(** [AddRequiredCMDOptions] of the test suite. *)
Definition AddRequiredCMDOptions : list ParamData :=
  [ PARAM_FLAG "help" "Default help info." "h";
    PARAM_STRING_IN "info" "Get help on a specific module or option." "" "";
    PARAM_FLAG "verbose"
      ("Display information messages and "
       ++ "the full list of parameters and timers at the end of execution.")
      "v";
    PARAM_FLAG "version" "Display the version of mlpack." "V" ].

Definition start (ds : list ParamData) : Process :=
  mkProcess (AddAll ds (ClearSettings "test")) true [].

(** The function on the reference parser. *)
Definition run (ds : list ParamData) (argv : list string)
  : Outcome unit * Process :=
  ParseCommandLine (RefParser.functionMap RefParser.WithDashes) "mlpack" argv
                   (start ds).

(** The function on the parser that reports names without dashes. *)
Definition run_bare (ds : list ParamData) (argv : list string)
  : Outcome unit * Process :=
  ParseCommandLine (RefParser.functionMap RefParser.Bare) "mlpack" argv
                   (start ds).

(** The option definitions that the function builds for a registry, on the
    reference parser. *)
Definition built (ds : list ParamData) : list RefParser.OptionDef :=
  fst (BuildOptions (RefParser.functionMap RefParser.WithDashes)
                    (parameters (registry (start ds)))).

(** The scenarios of the test suite: [TestDuplicateFlag],
    [TestDuplicateParam], [TestBooleanOption], [DoubleParamTest],
    [RequiredOptionTest] and [UnknownOptionTest]. *)
Definition TestDuplicateFlag : list ParamData :=
  (AddRequiredCMDOptions ++ [PARAM_FLAG "test" "test" "t"])%list.

Definition TestDuplicateFlag_argv : list string :=
  ["./test"; "--test"; "--test"].

Definition TestDuplicateParam_argv : list string :=
  ["./test"; "--info"; "test1"; "--info"; "test2"].

Definition TestBooleanOption : list ParamData :=
  (AddRequiredCMDOptions ++ [PARAM_FLAG "flag_test" "flag test description" ""])
  %list.

Definition TestBooleanOption_argv : list string :=
  ["programname"; "--flag_test"].

Definition DoubleParamTest : list ParamData :=
  (AddRequiredCMDOptions ++ [PARAM_DOUBLE_IN "double" "Test double" "d" (0 # 1)])
  %list.

Definition DoubleParamTest_argv : list string :=
  ["./test"; "--double"; "3.12"].

Definition RequiredOptionTest : list ParamData :=
  (AddRequiredCMDOptions
   ++ [PARAM_DOUBLE_IN_REQ "double" "Required test double" "d"])%list.

Definition UnknownOptionTest_argv : list string := ["./test"; "--unknown"].

(** A program with the header's own registrations and one required
    parameter of its own. *)
Definition header_with_required : list ParamData :=
  (header_parameters
   ++ [PARAM_DOUBLE_IN_REQ "double" "Required test double" "d"])%list.

(** The registry of the test suite with [version] and [help] both marked as
    passed already. *)
Definition version_and_help_passed : Process :=
  start (map (fun d =>
                if String.eqb (name d) "version" || String.eqb (name d) "help"
                then set_wasPassed true d else d)
             AddRequiredCMDOptions).

Definition version_and_help_argv : list string :=
  ["./test"; "--version"; "--help"].

(** What the reference parser answers for that command line. *)
Definition version_and_help_parsed : list RefParser.OptionDef :=
  Eval vm_compute in
    match RefParser.parse (built AddRequiredCMDOptions) version_and_help_argv
    with
    | inl app' => app'
    | inr _ => []
    end.

End CmdLine.

(** ** Armadillo matrices *)

Module Arma.

(** A dense matrix in column-major order: the number of rows and the
    columns. *)
Record Mat (A : Type) : Type := mkMat {
  n_rows : Z;
  columns : list (list A)
}.
Arguments mkMat {A} n_rows columns.
Arguments n_rows {A} m.
Arguments columns {A} m.

Definition n_cols {A : Type} (m : Mat A) : Z := Z.of_nat (List.length (columns m)).

Definition n_elem {A : Type} (m : Mat A) : Z := n_rows m * n_cols m.

(** A default-constructed matrix. *)
Definition empty {A : Type} : Mat A := mkMat 0 [].

(** [m.colptr(i)]. *)
Definition colptr {A : Type} (m : Mat A) (i : nat) : list A :=
  nth i (columns m) [].

(** [m.set_size(rows, cols)]: the contents are not initialised; every column
    is written before it is read in the code below. *)
Definition set_size {A : Type} (rows : Z) (cols : nat) : Mat A :=
  mkMat rows (repeat [] cols).

Fixpoint replace_nth {A : Type} (i : nat) (x : A) (l : list A) : list A :=
  match l, i with
  | [], _ => []
  | _ :: l', O => x :: l'
  | y :: l', S i' => y :: replace_nth i' x l'
  end.

(** [m.col(i) = c]. *)
Definition set_col {A : Type} (i : nat) (c : list A) (m : Mat A) : Mat A :=
  mkMat (n_rows m) (replace_nth i c (columns m)).

End Arma.

(** ** Image resizing *)

Module ImageResize.
Import Arma.

Record ImageInfo : Type := mkImageInfo {
  Width : Z;
  Height : Z;
  Channels : Z
}.

(** The element type [eT] of the template. Line 133 moves the byte-valued
    [resizedImages] into [images], an assignment between matrices of one
    element type, so that [unsigned char] is the element type for which the
    template has an instance. *)
Inductive ElemType : Type := UnsignedChar.

(** The two values of the resampler's layout enumeration that the function
    assigns. *)
Inductive stbir_pixel_layout : Type := STBIR_1CHANNEL | STBIR_RGB.

Inductive Result (A : Type) : Type :=
| Fatal (message : string)
| IndeterminateLayout
| Resized (images : Mat A) (info : ImageInfo).
Arguments Fatal {A} message.
Arguments IndeterminateLayout {A}.
Arguments Resized {A} images info.

Definition one_image_mismatch : string :=
  "Dimensions mismatch. ResizeImages(): the number of pixels is"
  ++ " not equal to the dimension provided by Info.".

Definition several_images_mismatch : string :=
  "Dimensions mismatch. ResizeImages(): In the case of several"
  ++ " images, please check if all the images have the same dimensions"
  ++ " already, if not, load each image in one column and recall this"
  ++ " function.".

Section ResizeImages.
(** The values of the elements and the byte resampler of the imaging
    library (source pixels, source width and height, new width and height,
    layout). *)
Variable elem : Type.
Variable stbir_resize_uint8_linear :
  list elem -> Z -> Z -> Z -> Z -> stbir_pixel_layout -> list elem.

(** Lines 55-78: the message when [Log::Fatal] fires. *)
Definition dimension_check (images : Mat elem) (info : ImageInfo)
  : option string :=
  let pixels := size_mul (size_mul (Width info) (Height info)) (Channels info) in
  if (n_cols images =? 1)%Z then
    if negb (n_elem images =? pixels)%Z then Some one_image_mismatch else None
  else
    if negb (n_rows images =? pixels)%Z then Some several_images_mismatch
    else None.

(** Lines 80-88: the variable is assigned in two cases and in no other. *)
Definition layout_of (info : ImageInfo) : option stbir_pixel_layout :=
  if (Channels info =? 1)%Z then Some STBIR_1CHANNEL
  else if (Channels info =? 3)%Z then Some STBIR_RGB
  else None.

(** Lines 104-111, one iteration: the branch of the [if constexpr] chain
    that [unsigned char] selects. *)
Definition resize_column (eT : ElemType) (images : Mat elem)
  (info : ImageInfo) (newWidth newHeight : Z) (channels : stbir_pixel_layout)
  (i : nat) (resizedImages : Mat elem) : Mat elem :=
  match eT with
  | UnsignedChar =>
      let tempDest :=
        stbir_resize_uint8_linear (colptr images i) (Width info)
          (Height info) newWidth newHeight channels in
      set_col i tempDest resizedImages
  end.

(** Lines 102-131: the loop reads [channels] in each iteration. *)
Fixpoint resize_loop (eT : ElemType) (images : Mat elem) (info : ImageInfo)
  (newWidth newHeight : Z) (channels : option stbir_pixel_layout)
  (indices : list nat) (resizedImages : Mat elem) : option (Mat elem) :=
  match indices with
  | [] => Some resizedImages
  | i :: rest =>
      match channels with
      | None => None
      | Some layout =>
          resize_loop eT images info newWidth newHeight channels rest
            (resize_column eT images info newWidth newHeight layout i
               resizedImages)
      end
  end.

(** Lines 47-136. The float-valued [resizedFloatImages] of line 93 is
    neither sized nor written when [eT] is [unsigned char]. *)
Definition ResizeImages (eT : ElemType) (images : Mat elem)
  (info : ImageInfo) (newWidth newHeight : Z) : Result elem :=
  match dimension_check images info with
  | Some message => Fatal message
  | None =>
      let channels := layout_of info in
      let newDimension :=
        size_mul (size_mul newWidth newHeight) (Channels info) in
      let cols := List.length (columns images) in
      let resizedImages :=
        match eT with UnsignedChar => set_size newDimension cols end in
      match resize_loop eT images info newWidth newHeight channels
              (seq 0 cols) resizedImages with
      | None => IndeterminateLayout
      | Some resizedImages =>
          Resized resizedImages
                  (mkImageInfo newWidth newHeight (Channels info))
      end
  end.
End ResizeImages.

End ImageResize.

(** ** The prediction driver of linear regression *)

Module LinRegPredict.
Import Arma.

(** A trained model: the coefficient vector, intercept first. *)
Record LinearRegression : Type := mkLinearRegression {
  Parameters : list Q
}.

(** Modelled from the spec: [LinearRegression::Predict], absent from the
    sources; the binding documents it as [y' = X' * b]: one response per
    column of the points, the intercept plus the weighted sum of the
    column. *)
Fixpoint dot (ws xs : list Q) : Q :=
  match ws, xs with
  | w :: ws', x :: xs' => Qplus (Qmult w x) (dot ws' xs')
  | _, _ => (0 # 1)%Q
  end.

Definition Predict (lr : LinearRegression) (points : Mat Q) : list Q :=
  match Parameters lr with
  | [] => map (fun _ => (0 # 1)%Q) (columns points)
  | b0 :: ws => map (fun column => Qplus b0 (dot ws column)) (columns points)
  end.

(** The parameters of the binding ([util::Params]): for each input whether it
    was passed and its value, the printable form of the test matrix, and the
    output. *)
Record Params : Type := mkParams {
  input_model_passed : bool;
  input_model : LinearRegression;
  test_passed : bool;
  test : Mat Q;
  test_printable : string;
  output_predictions : list Q
}.

Inductive TimerEvent : Type := Start (timer : string) | Stop (timer : string).

Inductive Failure : Type :=
| MustBePassed (parameter : string)
| WrongDimension (dimensions : Z) (testOutput : string) (rows : Z).

Inductive Result : Type :=
| Fatal (f : Failure) (timers : list TimerEvent)
| Done (params : Params) (timers : list TimerEvent).

(** Modelled from the spec: [RequireOnlyOnePassed] with one name and
    [fatal = true], absent from the sources; the call sites say "must be
    passed": it fails unless the parameter was passed. *)
Definition RequireOnlyOnePassed (passed : bool) (parameter : string)
  : option Failure :=
  if passed then None else Some (MustBePassed parameter).

(** Lines 74-114. Moving the test matrix out of the parameters leaves an
    empty matrix there. *)
Definition BINDING_FUNCTION (params : Params) : Result :=
  match RequireOnlyOnePassed (input_model_passed params) "input_model" with
  | Some f => Fatal f []
  | None =>
  match RequireOnlyOnePassed (test_passed params) "test" with
  | Some f => Fatal f []
  | None =>
      let timer := [Start "load_model"] in
      let lr := input_model params in
      let timer := (timer ++ [Stop "load_model"])%list in
      let timer := (timer ++ [Start "load_test_points"])%list in
      let testOutput := test_printable params in
      let timer := (timer ++ [Stop "load_test_points"])%list in
      let points := test params in
      let params :=
        mkParams (input_model_passed params) (input_model params)
                 (test_passed params) empty (test_printable params)
                 (output_predictions params) in
      let n_elem := Z.of_nat (List.length (Parameters lr)) in
      if negb (size_sub n_elem 1 =? n_rows points)%Z then
        let dimensions := size_sub n_elem 1 in
        Fatal (WrongDimension dimensions testOutput (n_rows points)) timer
      else
        let timer := (timer ++ [Start "prediction"])%list in
        let predictions := Predict lr points in
        let timer := (timer ++ [Stop "prediction"])%list in
        Done (mkParams (input_model_passed params) (input_model params)
                       (test_passed params) (test params)
                       (test_printable params) predictions)
             timer
  end
  end.

(** Two inputs: a model with one coefficient and no test matrix passed, and
    a model with two coefficients and a test matrix of one row and three
    columns. *)
Definition params_without_test : Params :=
  mkParams true (mkLinearRegression [(1 # 1)%Q]) false empty "" [].

Definition params_three_points : Params :=
  mkParams true (mkLinearRegression [(1 # 1)%Q; (2 # 1)%Q]) true
           (mkMat 1 [[(0 # 1)%Q]; [(1 # 1)%Q]; [(5 # 2)%Q]]) "X_test.csv" [].

Definition is_fatal (r : Result) : bool :=
  match r with Fatal _ _ => true | Done _ _ => false end.

End LinRegPredict.

(** ** Further notions for the statements about the three functions *)

Module CmdLineNotions.
Import CmdLine.

(** A command only ever appends to what has been written. *)
Definition extends_trace {A : Type} (c : Run A) : Prop :=
  forall p, exists rest, trace (snd (c p)) = (trace p ++ rest)%list.

(** A command that ends the process ends it with status 0. *)
Definition exits_with_zero {A : Type} (c : Run A) : Prop :=
  forall p code, fst (c p) = Exited code -> code = 0%Z.

(** The lines that the function writes on [std::cout] before it looks at the
    meta-options: the size of the application and one line per option that
    the parser holds. *)
Definition option_lines {P : Parser} (app : App) : list Event :=
  CoutAppSize (app_count_all app)
  :: map (fun o => CoutOption (get_name o)) (app_get_options app).

(** Two fields of a parameter agree everywhere but in the "was passed"
    mark. *)
Definition same_but_mark (d d' : ParamData) : Prop :=
  name d' = name d /\ desc d' = desc d /\ tname d' = tname d
  /\ alias d' = alias d /\ required d' = required d /\ input d' = input d
  /\ value d' = value d /\ cppType d' = cppType d.


End CmdLineNotions.

Module ImageResizeNotions.
Import Arma ImageResize.

(** What one column of the result holds: the resampled column. *)
Definition resized_column (elem : Type)
  (stbir_resize_uint8_linear :
     list elem -> Z -> Z -> Z -> Z -> stbir_pixel_layout -> list elem)
  (info : ImageInfo) (newWidth newHeight : Z) (layout : stbir_pixel_layout)
  (column : list elem) : list elem :=
  stbir_resize_uint8_linear column (Width info) (Height info)
    newWidth newHeight layout.

(** A resampler for the closed examples: every pixel of the result is the
    first pixel of the source. *)
Definition constant_resize (pixels : list Z) (w h newWidth newHeight : Z)
  (layout : stbir_pixel_layout) : list Z :=
  repeat (hd 0%Z pixels)
         (Z.to_nat (newWidth * newHeight
                    * match layout with STBIR_1CHANNEL => 1 | STBIR_RGB => 3 end)).

(** Two gray 2 x 2 images, one per column. *)
Definition two_gray_images : Mat Z :=
  mkMat 4 [[10; 20; 30; 40]; [50; 60; 70; 80]]%Z.

Definition gray_2x2 : ImageInfo := mkImageInfo 2 2 1.

(** No image at all, declared as 1 x 1 with four channels. *)
Definition no_image : Mat Z := mkMat 4 [].

Definition rgba_1x1 : ImageInfo := mkImageInfo 1 1 4.

(** Two images of 2 x 1 pixels with two channels each (gray and alpha),
    one per column. *)
Definition two_gray_alpha_images : Mat Z :=
  mkMat 4 [[10; 255; 20; 255]; [30; 255; 40; 255]]%Z.

Definition gray_alpha_2x1 : ImageInfo := mkImageInfo 2 1 2.

End ImageResizeNotions.

Module LinRegPredictNotions.
Import LinRegPredict.

(** A model that was never trained: no coefficient. The test matrix has two
    rows and one column. *)
Definition params_untrained : Params :=
  mkParams true (mkLinearRegression []) true
           (Arma.mkMat 2 [[(1 # 1)%Q; (2 # 1)%Q]]) "X_test.csv" [(7 # 1)%Q].

End LinRegPredictNotions.


(** * Properties of the command-line binding *)

Module StdMapFacts.
Section WithValue.
Context {V : Type}.
Implicit Types (m : StdMap.t V) (k : string) (v : V).

Lemma compare_refl k : String.compare k k = Eq.
Proof.
  pose proof (String.compare_antisym k k) as H.
  destruct (String.compare k k); simpl in H; congruence.
Qed.

Lemma compare_not_Eq k k' :
  String.compare k k' <> Eq -> String.eqb k k' = false.
Proof.
  intros H. apply String.eqb_neq. intros ->. apply H, compare_refl.
Qed.

Lemma find_insert_same k v m : StdMap.find k (StdMap.insert k v m) = Some v.
Proof.
  induction m as [|[k0 v0] m IH]; simpl.
  - now rewrite String.eqb_refl.
  - destruct (String.compare k k0) eqn:E; simpl.
    + now rewrite String.eqb_refl.
    + now rewrite String.eqb_refl.
    + rewrite compare_not_Eq by congruence. exact IH.
Qed.

Lemma find_insert_other k k' v m :
  k <> k' -> StdMap.find k' (StdMap.insert k v m) = StdMap.find k' m.
Proof.
  intros Hne. assert (Hb : String.eqb k' k = false).
  { apply String.eqb_neq. congruence. }
  induction m as [|[k0 v0] m IH]; simpl.
  - now rewrite Hb.
  - destruct (String.compare k k0) eqn:E; simpl.
    + apply String.compare_eq_iff in E. subst k0. now rewrite Hb.
    + now rewrite Hb.
    + now rewrite IH.
Qed.

Lemma find_insert_inv k k' v v' m :
  StdMap.find k (StdMap.insert k' v' m) = Some v ->
  (k = k' /\ v = v') \/ StdMap.find k m = Some v.
Proof.
  destruct (String.eqb_spec k' k) as [->|Hne].
  - rewrite find_insert_same. intros [= ->]. now left.
  - rewrite find_insert_other by assumption. now right.
Qed.
End WithValue.
End StdMapFacts.

Module CmdLineFacts.
Import CmdLine StdMapFacts.
Local Open Scope run_scope.

Create HintDb keeps.

Ltac run_step :=
  unfold bind, ret, exit, fatal, throw, gets, modify, emit, set_ignoreInput,
    CMD_HasParam, CMD_GetParam_string; simpl.

Section Preservation.
Context {P : Parser}.
Variable functionMap : string -> TypeOps P.
Variable GetVersion : string.

Lemma keeps_bind {A B : Type} (c : Run A) (k : A -> Run B) :
  keeps_registry c -> (forall a, keeps_registry (k a)) ->
  keeps_registry (bind c k).
Proof.
  intros Hc Hk p. unfold bind. specialize (Hc p).
  destruct (c p) as [[a| | |] p']; simpl in *; try assumption.
  rewrite Hk. exact Hc.
Qed.

Lemma keeps_ret {A : Type} (a : A) : keeps_registry (ret a).
Proof. intros p. reflexivity. Qed.

Lemma keeps_exit {A : Type} code : keeps_registry (@exit A code).
Proof. intros p. reflexivity. Qed.

Lemma keeps_fatal {A : Type} m : keeps_registry (@fatal A m).
Proof. intros p. reflexivity. Qed.

Lemma keeps_throw {A : Type} w : keeps_registry (@throw A w).
Proof. intros p. reflexivity. Qed.

Lemma keeps_gets {A : Type} (f : Process -> A) : keeps_registry (gets f).
Proof. intros p. reflexivity. Qed.

Lemma keeps_emit e : keeps_registry (emit e).
Proof. intros p. reflexivity. Qed.

Lemma keeps_set_ignoreInput b : keeps_registry (set_ignoreInput b).
Proof. intros p. reflexivity. Qed.

Lemma keeps_HasParam key : keeps_registry (CMD_HasParam key).
Proof. intros p. unfold CMD_HasParam. now destruct (HasParam _ _). Qed.

Lemma keeps_GetParam_string key : keeps_registry (CMD_GetParam_string key).
Proof.
  intros p. unfold CMD_GetParam_string.
  destruct (GetParam _ _) as [[]|]; reflexivity.
Qed.

#[local] Hint Resolve keeps_ret keeps_exit keeps_fatal keeps_throw keeps_gets
  keeps_emit keeps_set_ignoreInput keeps_HasParam keeps_GetParam_string
  : keeps.

Ltac keeps :=
  repeat first
    [ apply keeps_bind; [| intros ?]
    | match goal with |- keeps_registry (if ?b then _ else _) => destruct b end
    | solve [auto with keeps] ].

Lemma keeps_HandleMetaOptions : keeps_registry (HandleMetaOptions GetVersion).
Proof. unfold HandleMetaOptions. keeps. Qed.

Lemma keeps_CheckRequired app ps :
  keeps_registry (CheckRequired functionMap app ps).
Proof.
  induction ps as [|[k d] ps IH]; simpl; [auto with keeps|].
  destruct (required d); [|exact IH].
  destruct (app_count _ _) as [[|n]|]; auto with keeps.
Qed.

Lemma keeps_Validate app : keeps_registry (Validate functionMap GetVersion app).
Proof.
  unfold Validate. pose proof keeps_HandleMetaOptions.
  pose proof (keeps_CheckRequired app). keeps.
Qed.

(** The function, by the answer of the parser. *)
Lemma ParseCommandLine_unfold argv p :
  ParseCommandLine functionMap GetVersion argv p =
  match app_parse (fst (BuildOptions functionMap (parameters (registry p))))
                  argv with
  | inl app' => Validate functionMap GetVersion app' (Marked functionMap app' p)
  | inr what => (FatalError (ParseException what), mark_didParse p)
  end.
Proof.
  unfold ParseCommandLine, Marked, Validate, TryParse.
  destruct (BuildOptions functionMap (parameters (registry p)))
    as [app boostNameMap] eqn:E.
  unfold bind at 1. unfold gets at 1. simpl. rewrite E. simpl.
  unfold bind at 1. unfold modify at 1. simpl.
  unfold bind at 1.
  destruct (app_parse app argv) as [app'|what]; [|reflexivity].
  unfold ret at 1. simpl.
  unfold bind at 1. unfold emit at 1, modify at 1. simpl.
  unfold bind at 1. unfold modify at 1. simpl. reflexivity.
Qed.

Lemma marked_of_refl d : marked_of d d.
Proof. now left. Qed.

Lemma marked_of_trans d1 d2 d3 :
  marked_of d1 d2 -> marked_of d2 d3 -> marked_of d1 d3.
Proof.
  intros [->| ->] [->| ->]; unfold marked_of; auto.
Qed.

Lemma marked_of_value d d' : marked_of d d' -> value d' = value d.
Proof. now intros [->| ->]. Qed.

Lemma marked_of_required d d' : marked_of d d' -> required d' = required d.
Proof. now intros [->| ->]. Qed.

(** One iteration of the marking loop touches the parameters only: every
    entry stays, with at most its mark set. *)
Lemma MarkOption_spec bm p o :
  let p' := snd (MarkOption (bm, p) o) in
  aliases (registry p') = aliases (registry p)
  /\ programName (registry p') = programName (registry p)
  /\ forall k d, StdMap.find k (parameters (registry p)) = Some d ->
       exists d', StdMap.find k (parameters (registry p')) = Some d'
                  /\ marked_of d d'.
Proof.
  unfold MarkOption. simpl.
  destruct (StdMap.index "" (get_name o) bm) as [identifier bm'].
  unfold StdMap.index.
  destruct (StdMap.find identifier (parameters (registry p))) as [v|] eqn:E;
    simpl; (split; [reflexivity|split; [reflexivity|]]); intros k d Hk.
  - destruct (String.eqb_spec identifier k) as [->|Hne].
    + rewrite find_insert_same. rewrite E in Hk. injection Hk as ->.
      eexists; split; [reflexivity|]. now right.
    + rewrite find_insert_other by assumption.
      eexists; split; [eassumption|apply marked_of_refl].
  - assert (Hne : identifier <> k) by (intros ->; congruence).
    rewrite !find_insert_other by assumption.
    eexists; split; [eassumption|apply marked_of_refl].
Qed.

Lemma MarkOptions_spec options : forall bm p,
  let p' := MarkOptions options bm p in
  aliases (registry p') = aliases (registry p)
  /\ programName (registry p') = programName (registry p)
  /\ forall k d, StdMap.find k (parameters (registry p)) = Some d ->
       exists d', StdMap.find k (parameters (registry p')) = Some d'
                  /\ marked_of d d'.
Proof.
  unfold MarkOptions.
  induction options as [|o options IH]; intros bm p; simpl.
  - split; [reflexivity|split; [reflexivity|]]. intros k d Hk.
    eexists; split; [eassumption|apply marked_of_refl].
  - destruct (MarkOption (bm, p) o) as [bm1 p1] eqn:E.
    pose proof (MarkOption_spec bm p o) as H1. rewrite E in H1. simpl in H1.
    destruct H1 as (Ha1 & Hn1 & Hf1).
    destruct (IH bm1 p1) as (Ha & Hn & Hf).
    split; [congruence|split; [congruence|]]. intros k d Hk.
    destruct (Hf1 k d Hk) as (d1 & Hk1 & Hm1).
    destruct (Hf k d1 Hk1) as (d2 & Hk2 & Hm2).
    exists d2; split; [assumption|eapply marked_of_trans; eassumption].
Qed.

Lemma Marked_spec app p :
  aliases (registry (Marked functionMap app p)) = aliases (registry p)
  /\ programName (registry (Marked functionMap app p))
     = programName (registry p)
  /\ forall k d, StdMap.find k (parameters (registry p)) = Some d ->
       exists d', StdMap.find k (parameters (registry (Marked functionMap app p)))
                  = Some d' /\ marked_of d d'.
Proof.
  unfold Marked.
  exact (MarkOptions_spec (app_get_options app)
           (snd (BuildOptions functionMap (parameters (registry p))))
           (mkProcess (registry (mark_didParse p))
                      (Info_ignoreInput (mark_didParse p))
                      (trace (mark_didParse p)
                       ++ [CoutAppSize (app_count_all app)]))).
Qed.

(** Where the registry of the final process comes from. *)
Lemma ParseCommandLine_registry argv p :
  let r := ParseCommandLine functionMap GetVersion argv p in
  registry (snd r) = registry (mark_didParse p)
  \/ exists app', registry (snd r) = registry (Marked functionMap app' p).
Proof.
  simpl. rewrite ParseCommandLine_unfold.
  destruct (app_parse _ argv) as [app'|what]; [right|left; reflexivity].
  exists app'. apply keeps_Validate.
Qed.

(** No path through the function writes the value of a parameter: whatever
    the parser and the dispatch table do, every registered parameter holds
    after the call the value it held before. *)
Lemma ParseCommandLine_keeps_values argv p key v :
  GetParam (registry p) key = Some v ->
  GetParam (registry (snd (ParseCommandLine functionMap GetVersion argv p)))
           key = Some v.
Proof.
  intros H. unfold GetParam, resolve in *.
  destruct (ParseCommandLine_registry argv p) as [->|[app' ->]].
  - exact H.
  - destruct (Marked_spec app' p) as (Ha & _ & Hf). rewrite Ha.
    destruct (StdMap.find _ (parameters (registry p))) as [d|] eqn:E;
      [|discriminate].
    destruct (Hf _ _ E) as (d' & -> & Hm). simpl in *.
    now rewrite (marked_of_value _ _ Hm).
Qed.

(** The required-options loop does not touch the process, and its outcome
    does not depend on it. *)
Lemma CheckRequired_process app ps : forall p p0,
  CheckRequired functionMap app ps p
  = (fst (CheckRequired functionMap app ps p0), p).
Proof.
  induction ps as [|[k d] ps IH]; intros p p0; simpl; [reflexivity|].
  destruct (required d); [|apply IH].
  destruct (app_count _ _) as [[|n]|]; try reflexivity. apply IH.
Qed.

Lemma CheckRequired_never_exits app ps p code :
  fst (CheckRequired functionMap app ps p) <> Exited code.
Proof.
  induction ps as [|[k d] ps IH]; simpl; [discriminate|].
  destruct (required d); [|exact IH].
  destruct (app_count _ _) as [[|n]|]; simpl; try discriminate. exact IH.
Qed.




(** The rest of the function when no meta-option is marked. *)
Lemma Validate_without_meta_options app q verbose :
  HasParam (registry q) "version" = Some false ->
  HasParam (registry q) "help" = Some false ->
  HasParam (registry q) "info" = Some false ->
  HasParam (registry q) "verbose" = Some verbose ->
  fst (Validate functionMap GetVersion app q)
  = fst (CheckRequired functionMap app (parameters (registry q)) q).
Proof.
  intros Hv Hh Hi Hverb. unfold Validate, HandleMetaOptions.
  run_step. rewrite Hv. simpl. rewrite Hh. simpl. rewrite Hi. simpl.
  rewrite Hverb. simpl.
  destruct verbose; simpl;
    match goal with
    | |- context [CheckRequired _ _ _ ?p'] =>
        rewrite (CheckRequired_process app _ p' q)
    end;
    destruct (fst (CheckRequired functionMap app (parameters (registry q)) q));
    reflexivity.
Qed.

(** The identifiers that the marking loop can create are the names that
    the first loop stored in the name map, and the empty string. *)
Lemma BuildOptions_values ps : forall acc k v,
  StdMap.find k (snd (fold_left (AddOption functionMap) ps acc)) = Some v ->
  StdMap.find k (snd acc) = Some v
  \/ In v (map (fun it => name (snd it)) ps).
Proof.
  induction ps as [|it ps IH]; intros acc k v H; simpl in *; [now left|].
  destruct (IH _ _ _ H) as [H1|H1]; [|now right; right].
  unfold AddOption in H1. simpl in H1.
  destruct (find_insert_inv _ _ _ _ _ H1) as [[_ ->]|H2];
    [right; now left|now left].
Qed.

Lemma BuildOptions_absent ps key :
  ~ In key (map (fun it => name (snd it)) ps) ->
  forall k, StdMap.find k (snd (BuildOptions functionMap ps)) <> Some key.
Proof.
  intros Hnot k H. unfold BuildOptions in H.
  destruct (BuildOptions_values _ _ _ _ H) as [H1|H1];
    [discriminate|contradiction].
Qed.

Lemma MarkOptions_absent key options : forall bm p,
  key <> "" ->
  (forall k, StdMap.find k bm <> Some key) ->
  StdMap.find key (parameters (registry p)) = None ->
  StdMap.find key (parameters (registry (MarkOptions options bm p))) = None.
Proof.
  unfold MarkOptions.
  induction options as [|o options IH]; intros bm p Hkey Hbm Hp; simpl;
    [assumption|].
  destruct (MarkOption (bm, p) o) as [bm1 p1] eqn:E.
  apply IH; [assumption| |]; unfold MarkOption in E; simpl in E;
    unfold StdMap.index in E;
    destruct (StdMap.find (get_name o) bm) as [identifier|] eqn:Eb.
  - destruct (StdMap.find identifier (parameters (registry p)));
      injection E as <- <-; exact Hbm.
  - destruct (StdMap.find "" (parameters (registry p)));
      injection E as <- <-; intros k Hk;
      (destruct (find_insert_inv _ _ _ _ _ Hk) as [[_ Hc]|Hc];
       [now apply Hkey|now apply (Hbm k)]).
  - assert (Hne : identifier <> key) by (intros ->; now apply (Hbm (get_name o))).
    destruct (StdMap.find identifier (parameters (registry p)));
      injection E as <- <-; simpl;
      now rewrite ?find_insert_other by assumption.
  - assert (Hne : "" <> key) by congruence.
    destruct (StdMap.find "" (parameters (registry p)));
      injection E as <- <-; simpl;
      now rewrite ?find_insert_other by assumption.
Qed.

Lemma Marked_absent app p key :
  key <> "" ->
  ~ In key (map (fun it => name (snd it)) (parameters (registry p))) ->
  StdMap.find key (parameters (registry p)) = None ->
  StdMap.find key (parameters (registry (Marked functionMap app p))) = None.
Proof.
  intros Hkey Hnot Hp. unfold Marked.
  apply MarkOptions_absent; [assumption| |exact Hp].
  now apply BuildOptions_absent.
Qed.

(** C6: an error that the underlying parser raises while parsing is caught
    inside the function and turned into a fatal error carrying the
    parser's message; the call ends with that fatal error and with no
    other exception, whatever the parser, the registry and the command
    line are. *)
Theorem parse_errors_become_fatal argv p what :
  app_parse (fst (BuildOptions functionMap (parameters (registry p)))) argv
  = inr what ->
  let r := ParseCommandLine functionMap GetVersion argv p in
  fst r = FatalError (ParseException what)
  /\ fatal_text (ParseException what)
     = "Caught exception from parsing command line: " ++ what
  /\ (forall w, fst r <> Thrown w)
  /\ (forall a, fst r <> Returned a).
Proof.
  intros H r. subst r. rewrite ParseCommandLine_unfold, H. simpl.
  repeat split; intros; discriminate.
Qed.


End Preservation.


(** The unknown option of [UnknownOptionTest] is a fatal error. *)
Lemma parse_errors_become_fatal_witness :
  RefParser.parse (built AddRequiredCMDOptions) UnknownOptionTest_argv
  = inr "The following argument was not expected: --unknown"
  /\ fst (run AddRequiredCMDOptions UnknownOptionTest_argv)
     = FatalError
         (ParseException "The following argument was not expected: --unknown").
Proof.
  split; [reflexivity|].
  exact (proj1 (parse_errors_become_fatal (RefParser.functionMap RefParser.WithDashes) "mlpack"
                  UnknownOptionTest_argv (start AddRequiredCMDOptions)
                  "The following argument was not expected: --unknown"
                  eq_refl)).
Defined.


(** The same required option, supplied: the call returns. *)
Example required_option_present :
  fst (run RequiredOptionTest ["./test"; "--double"; "3.12"]) = Returned tt.
Proof. reflexivity. Qed.


(** C1: the claim is that a supplied parameter is marked and receives the
    parsed value, so that [DoubleParamTest] reads 3.12. On the code the value
    is never written: for every parser and every dispatch table the
    parameter [double] still holds its default 0.0 after the call; and on
    the reference parser, which counts the option once, the call returns
    with [double] not marked as passed. *)
Theorem parsed_double_is_not_stored :
  (forall (P : Parser) (functionMap : string -> TypeOps P) (GetVersion : string),
      GetParam
        (registry (snd (ParseCommandLine functionMap GetVersion
                          DoubleParamTest_argv (start DoubleParamTest))))
        "double" = Some (ADouble (0 # 1)))
  /\ (exists app',
        RefParser.parse (built DoubleParamTest) DoubleParamTest_argv = inl app'
        /\ RefParser.count app' "double" = Some 1%nat)
  /\ fst (run DoubleParamTest DoubleParamTest_argv) = Returned tt
  /\ HasParam (registry (snd (run DoubleParamTest DoubleParamTest_argv)))
              "double" = Some false.
Proof.
  split; [|split; [|split]].
  - intros P functionMap GetVersion.
    now apply ParseCommandLine_keeps_values.
  - eexists. split; reflexivity.
  - reflexivity.
  - reflexivity.
Qed.

(** C2: the claim is that a repeated flag is accepted and leaves the flag
    true, and that a repeated one-valued option is a fatal error naming the
    original token. On the code, with the flag of [TestDuplicateFlag] given
    twice, the flag holds [false] after the call for every parser and every
    dispatch table; on the reference parser the call returns with the flag
    not marked as passed although the parser stored two results for it; and
    the repeated [--info] of [TestDuplicateParam] ends in the fatal error
    that relays the parser's own exception, the function having no check of
    its own. *)
Theorem duplicate_flag_is_not_set :
  (forall (P : Parser) (functionMap : string -> TypeOps P) (GetVersion : string),
      GetParam
        (registry (snd (ParseCommandLine functionMap GetVersion
                          TestDuplicateFlag_argv (start TestDuplicateFlag))))
        "test" = Some (ABool false))
  /\ (exists app',
        RefParser.parse (built TestDuplicateFlag) TestDuplicateFlag_argv
        = inl app'
        /\ RefParser.count app' "test" = Some 2%nat)
  /\ fst (run TestDuplicateFlag TestDuplicateFlag_argv) = Returned tt
  /\ HasParam (registry (snd (run TestDuplicateFlag TestDuplicateFlag_argv)))
              "test" = Some false
  /\ fst (run AddRequiredCMDOptions TestDuplicateParam_argv)
     = FatalError (ParseException "--info: At most 1 required").
Proof.
  split; [|split; [|split; [|split]]].
  - intros P functionMap GetVersion.
    now apply ParseCommandLine_keeps_values.
  - eexists. split; reflexivity.
  - reflexivity.
  - reflexivity.
  - reflexivity.
Qed.

(** C3: the claim is that after the call [HasParam] is true exactly for the
    parameters that were supplied. On the code, in [TestBooleanOption] the
    flag [flag_test] is supplied and the reference parser counts it once and
    [help] not at all, yet the call returns with [HasParam "flag_test"]
    false; the only entry that the marking loop marks is one that it creates
    under the empty name. With a parser that reports names without dashes the
    loop marks every defined option instead: [help], which was not supplied,
    is marked, and the call exits at the [version] check. *)
Theorem supplied_flag_is_not_marked :
  (exists app',
      RefParser.parse (built TestBooleanOption) TestBooleanOption_argv
      = inl app'
      /\ RefParser.count app' "flag_test" = Some 1%nat
      /\ RefParser.count app' "help" = Some 0%nat)
  /\ fst (run TestBooleanOption TestBooleanOption_argv) = Returned tt
  /\ HasParam (registry (snd (run TestBooleanOption TestBooleanOption_argv)))
              "flag_test" = Some false
  /\ HasParam (registry (start TestBooleanOption)) "" = None
  /\ HasParam (registry (snd (run TestBooleanOption TestBooleanOption_argv)))
              "" = Some true
  /\ fst (run_bare TestBooleanOption TestBooleanOption_argv) = Exited 0
  /\ HasParam (registry (snd (run_bare TestBooleanOption TestBooleanOption_argv)))
              "help" = Some true.
Proof.
  split; [|repeat split].
  eexists. repeat split.
Qed.

(** C7: the claim is that [help] is registered with the other built-in
    options in every program. The header registers [info], [verbose] and
    [version] only, so [help] is unknown to the registry; for every parser,
    dispatch table and command line the function then ends in the relayed
    parser error, in the [version] exit, or in the fatal error that [help]
    is an unknown parameter, and never returns; on the reference parser
    [--help] is an unexpected argument. *)
Theorem help_is_not_registered :
  HasParam (registry (start header_parameters)) "help" = None
  /\ (forall (P : Parser) (functionMap : string -> TypeOps P)
        (GetVersion : string) (argv : list string),
        let r := ParseCommandLine functionMap GetVersion argv
                   (start header_parameters) in
        (exists what, fst r = FatalError (ParseException what))
        \/ (fst r = Exited 0
            /\ exists tr, trace (snd r) = (tr ++ [CoutVersion "test" GetVersion])%list)
        \/ fst r = FatalError (UnknownParameter "help"))
  /\ fst (run header_parameters ["./program"; "--help"])
     = FatalError
         (ParseException "The following argument was not expected: --help")
  /\ fst (run header_parameters ["./program"])
     = FatalError (UnknownParameter "help").
Proof.
  split; [reflexivity|split; [|split; reflexivity]].
  intros P functionMap GetVersion argv r. subst r.
  rewrite ParseCommandLine_unfold.
  destruct (app_parse _ argv) as [app'|what]; [right|left; now exists what].
  set (q := Marked functionMap app' (start header_parameters)).
  destruct (Marked_spec functionMap app' (start header_parameters))
    as (Ha & Hn & Hf). fold q in Ha, Hn, Hf.
  assert (Hhelp : HasParam (registry q) "help" = None).
  { unfold HasParam, resolve. rewrite Ha. simpl.
    unfold q. rewrite Marked_absent; [reflexivity|discriminate| |reflexivity].
    simpl. intros [H|[H|[H|[]]]]; discriminate H. }
  assert (Hversion : exists b, HasParam (registry q) "version" = Some b).
  { unfold HasParam, resolve. rewrite Ha. simpl.
    destruct (Hf "version" _ eq_refl) as (d' & Hd & _).
    rewrite Hd. simpl. eauto. }
  destruct Hversion as [b Hversion].
  unfold Validate, HandleMetaOptions. run_step. rewrite Hversion. simpl.
  destruct b; simpl.
  - left. split; [reflexivity|]. rewrite Hn. simpl. eauto.
  - right. now rewrite Hhelp.
Qed.

End CmdLineFacts.

(** * Properties of the image resizing *)

Module ImageResizeFacts.
Import Arma ImageResize.
Local Open Scope Z_scope.

Section Facts.
Variable elem : Type.
Variable stbir_resize_uint8_linear :
  list elem -> Z -> Z -> Z -> Z -> stbir_pixel_layout -> list elem.

Let resize_loop' := resize_loop elem stbir_resize_uint8_linear.
Let ResizeImages' := ResizeImages elem stbir_resize_uint8_linear.

Lemma replace_nth_length {A : Type} (l : list A) : forall i x,
  List.length (replace_nth i x l) = List.length l.
Proof.
  induction l as [|y l IH]; intros [|i] x; simpl; auto.
Qed.

Lemma set_col_shape i c (m : Mat elem) :
  n_rows (set_col i c m) = n_rows m /\ n_cols (set_col i c m) = n_cols m.
Proof.
  unfold set_col, n_cols. simpl. now rewrite replace_nth_length.
Qed.

(** The loop keeps the shape of the result matrix. *)
Lemma resize_loop_shape eT images info nw nh channels indices :
  forall acc acc',
    resize_loop' eT images info nw nh channels indices acc = Some acc' ->
    n_rows acc' = n_rows acc /\ n_cols acc' = n_cols acc.
Proof.
  unfold resize_loop'.
  induction indices as [|i indices IH]; intros acc acc' H; simpl in H.
  - injection H as <-. auto.
  - destruct channels as [layout|]; [|discriminate].
    destruct (IH _ _ H) as (Hr & Hc).
    rewrite Hr, Hc. unfold resize_column.
    destruct eT. apply set_col_shape.
Qed.

Lemma resize_loop_runs eT images info nw nh layout indices : forall acc,
  exists acc',
    resize_loop' eT images info nw nh (Some layout) indices acc = Some acc'.
Proof.
  unfold resize_loop'.
  induction indices as [|i indices IH]; intros acc; simpl; eauto.
Qed.

(** Where the function does what its documentation says: one or three
    channels. *)
Lemma ResizeImages_bytes_shape eT images info nw nh :
  dimension_check elem images info = None ->
  Channels info = 1 \/ Channels info = 3 ->
  exists images',
    ResizeImages' eT images info nw nh
    = Resized images' (mkImageInfo nw nh (Channels info))
    /\ n_rows images' = size_mul (size_mul nw nh) (Channels info)
    /\ n_cols images' = n_cols images.
Proof.
  intros Hcheck Hch. unfold ResizeImages', ResizeImages.
  rewrite Hcheck.
  assert (Hl : exists layout, layout_of info = Some layout).
  { unfold layout_of. destruct Hch as [-> | ->]; simpl; eauto. }
  destruct Hl as [layout ->].
  match goal with
  | |- context [resize_loop _ _ ?e ?im ?inf ?w ?h _ ?ix ?acc] =>
      destruct (resize_loop_runs e im inf w h layout ix acc) as [acc' Hrun];
      pose proof (resize_loop_shape e im inf w h (Some layout) ix acc acc' Hrun)
        as (Hr & Hc)
  end.
  unfold resize_loop' in Hrun. rewrite Hrun.
  exists acc'. split; [reflexivity|]. destruct eT. split; [exact Hr|].
  rewrite Hc. unfold n_cols, set_size. simpl. now rewrite repeat_length.
Qed.
End Facts.

(** C8: the claim is that every input that passes the dimension check comes
    back resized, with [newWidth * newHeight * Channels] rows and its
    columns. The dimension check compares pixel counts only, and the pixel
    layout is assigned for one and for three channels only: two images of
    2 x 1 pixels with two channels each pass the check, [channels] is left
    unassigned, the first iteration of the loop passes it to the resampler,
    and the call does not come to a resized matrix. *)
Theorem two_channels_are_not_resized :
  forall (elem : Type) (x y : elem)
    (stbir_resize_uint8_linear :
       list elem -> Z -> Z -> Z -> Z -> stbir_pixel_layout -> list elem),
    let images := mkMat 4 [[x; y; x; y]; [y; x; y; x]] in
    let info := mkImageInfo 2 1 2 in
    n_rows images
    = size_mul (size_mul (Width info) (Height info)) (Channels info)
    /\ n_cols images = 2
    /\ dimension_check elem images info = None
    /\ layout_of info = None
    /\ ResizeImages elem stbir_resize_uint8_linear UnsignedChar images info
         1 1
       = IndeterminateLayout
    /\ (forall images' info',
          ResizeImages elem stbir_resize_uint8_linear UnsignedChar images
            info 1 1
          <> Resized images' info').
Proof.
  intros. repeat split. intros images' info'. discriminate.
Qed.

(** C9: the claim is that the pixel layout is always initialised when the
    resampler is called. The code assigns it for one and for three channels
    and has no other case: a 1 x 1 image with four channels passes the
    dimension check, [channels] is left unassigned, and the first iteration
    of the loop passes it to the resampler. *)
Theorem four_channels_leave_layout_unset :
  forall (elem : Type) (x : elem)
    (stbir_resize_uint8_linear :
       list elem -> Z -> Z -> Z -> Z -> stbir_pixel_layout -> list elem),
    let images := mkMat 4 [[x; x; x; x]] in
    let info := mkImageInfo 1 1 4 in
    dimension_check elem images info = None
    /\ layout_of info = None
    /\ ResizeImages elem stbir_resize_uint8_linear UnsignedChar images info
         2 2
       = IndeterminateLayout.
Proof.
  intros. repeat split.
Qed.

End ImageResizeFacts.

(** * Properties of the prediction driver *)

Module LinRegPredictFacts.
Import Arma LinRegPredict.
Local Open Scope Z_scope.

Lemma Predict_length lr points :
  List.length (Predict lr points) = List.length (columns points).
Proof.
  unfold Predict. destruct (Parameters lr); apply length_map.
Qed.

(** The unsigned subtraction of the dimension check agrees with the integer
    one as soon as the matrix has fewer than [2^64 - 1] rows. *)
Lemma trained_dimension n rows :
  0 <= n < 2 ^ 64 -> 0 <= rows < 2 ^ 64 - 1 ->
  (size_sub n 1 =? rows) = (rows =? n - 1).
Proof.
  intros Hn Hrows. unfold size_sub, wrap, size_t_modulus.
  destruct (Z.eq_dec n 0) as [->|Hpos].
  - change ((0 - 1) mod 2 ^ 64) with (2 ^ 64 - 1).
    destruct (Z.eqb_spec (2 ^ 64 - 1) rows), (Z.eqb_spec rows (0 - 1)); lia.
  - rewrite Z.mod_small by lia.
    destruct (Z.eqb_spec (n - 1) rows), (Z.eqb_spec rows (n - 1)); lia.
Qed.

(** C10, as stated, fails: with a model of one coefficient and no test
    matrix passed, the (empty) test matrix has the zero rows that the model
    expects, and the binding still raises a fatal error. *)
Lemma fatal_with_matching_dimensions :
  n_rows (test params_without_test)
  = Z.of_nat (List.length (Parameters (input_model params_without_test))) - 1
  /\ BINDING_FUNCTION params_without_test = Fatal (MustBePassed "test") []
  /\ is_fatal (BINDING_FUNCTION params_without_test) = true.
Proof. repeat split. Qed.

(** C10, amended: the binding raises a fatal error if and only if the model
    was not passed, or the test matrix was not passed, or the number of rows
    of the test matrix differs from the number of coefficients minus one;
    when both were passed and the dimensions match it stores one predicted
    response per column of the test matrix and leaves the model as it
    was. *)
Theorem predict_binding_fatal_iff params :
  let n := Z.of_nat (List.length (Parameters (input_model params))) in
  let rows := n_rows (test params) in
  n < 2 ^ 64 -> 0 <= rows < 2 ^ 64 - 1 ->
  (is_fatal (BINDING_FUNCTION params) = true <->
     input_model_passed params = false \/ test_passed params = false
     \/ rows <> n - 1)
  /\ (input_model_passed params = true -> test_passed params = true ->
      rows = n - 1 ->
      exists params' timers,
        BINDING_FUNCTION params = Done params' timers
        /\ output_predictions params' = Predict (input_model params) (test params)
        /\ Z.of_nat (List.length (output_predictions params'))
           = n_cols (test params)
        /\ input_model params' = input_model params).
Proof.
  intros n rows Hn Hrows.
  assert (Hcmp := trained_dimension n rows (conj (Nat2Z.is_nonneg _) Hn) Hrows).
  unfold BINDING_FUNCTION, RequireOnlyOnePassed.
  destruct (input_model_passed params), (test_passed params); simpl;
    try (split; [split; [tauto|reflexivity]|discriminate]).
  fold n rows. rewrite Hcmp.
  destruct (Z.eqb_spec rows (n - 1)) as [Heq|Hne]; simpl.
  - split.
    + split; [discriminate|]. intros [H|[H|H]]; try discriminate. contradiction.
    + intros _ _ _. do 2 eexists.
      split; [reflexivity|]. simpl. split; [reflexivity|].
      split; [|reflexivity]. unfold n_cols. now rewrite Predict_length.
  - split.
    + split; [tauto|reflexivity].
    + intros _ _ H. contradiction.
Qed.

(** Three test points of the right dimension: three predictions. *)
Lemma predict_binding_fatal_iff_witness :
  is_fatal (BINDING_FUNCTION params_three_points) = false
  /\ exists params' timers,
       BINDING_FUNCTION params_three_points = Done params' timers
       /\ output_predictions params'
          = Predict (input_model params_three_points) (test params_three_points)
       /\ Z.of_nat (List.length (output_predictions params')) = 3
       /\ input_model params' = input_model params_three_points.
Proof.
  assert (Hn : Z.of_nat (List.length (Parameters (input_model params_three_points)))
               < 2 ^ 64) by (simpl; lia).
  assert (Hrows : 0 <= n_rows (test params_three_points) < 2 ^ 64 - 1)
    by (simpl; lia).
  split; [reflexivity|].
  exact (proj2 (predict_binding_fatal_iff params_three_points Hn Hrows)
           eq_refl eq_refl eq_refl).
Defined.

End LinRegPredictFacts.

(** * Further properties of the command-line binding *)

Module CmdLineExtra.
Import CmdLine StdMapFacts CmdLineFacts CmdLineNotions.
Local Open Scope run_scope.

Section General.
Context {P : Parser}.
Variable functionMap : string -> TypeOps P.
Variable GetVersion : string.

Lemma marked_of_same_but_mark d d' :
  marked_of d d' ->
  same_but_mark d d' /\ (wasPassed d = true -> wasPassed d' = true).
Proof.
  unfold same_but_mark. intros [->| ->]; simpl; repeat split; auto.
Qed.

(** What the marking loop leaves alone, and what it writes. *)
Lemma MarkOption_frame bm p o :
  let p' := snd (MarkOption (bm, p) o) in
  didParse (registry p') = didParse (registry p)
  /\ Info_ignoreInput p' = Info_ignoreInput p
  /\ trace p' = (trace p ++ [CoutOption (get_name o)])%list.
Proof.
  unfold MarkOption. simpl.
  destruct (StdMap.index "" (get_name o) bm) as [identifier bm'].
  destruct (StdMap.index ParamData_zero identifier (parameters (registry p)))
    as [param ps].
  simpl. auto.
Qed.

Lemma MarkOptions_frame options : forall bm p,
  let p' := MarkOptions options bm p in
  didParse (registry p') = didParse (registry p)
  /\ Info_ignoreInput p' = Info_ignoreInput p
  /\ trace p'
     = (trace p ++ map (fun o => CoutOption (get_name o)) options)%list.
Proof.
  unfold MarkOptions.
  induction options as [|o options IH]; intros bm p; simpl.
  - now rewrite app_nil_r.
  - destruct (MarkOption (bm, p) o) as [bm1 p1] eqn:E.
    pose proof (MarkOption_frame bm p o) as H1. rewrite E in H1. simpl in H1.
    destruct H1 as (Hd1 & Hi1 & Ht1).
    destruct (IH bm1 p1) as (Hd & Hi & Ht).
    rewrite Hd, Hi, Ht, Hd1, Hi1, Ht1, <- app_assoc. auto.
Qed.

Lemma Marked_frame app p :
  didParse (registry (Marked functionMap app p)) = true
  /\ Info_ignoreInput (Marked functionMap app p) = Info_ignoreInput p
  /\ trace (Marked functionMap app p) = (trace p ++ option_lines app)%list.
Proof.
  unfold Marked, option_lines.
  match goal with
  | |- context [MarkOptions ?os ?bm ?q] =>
      destruct (MarkOptions_frame os bm q) as (Hd & Hi & Ht)
  end.
  rewrite Hd, Hi, Ht. simpl. rewrite <- app_assoc. auto.
Qed.

(** The rest of the function only appends to the output and can end the
    process with status 0 only. *)
Lemma extends_bind {A B : Type} (c : Run A) (k : A -> Run B) :
  extends_trace c -> (forall a, extends_trace (k a)) ->
  extends_trace (bind c k).
Proof.
  intros Hc Hk p. unfold bind. destruct (Hc p) as [rest Hrest].
  destruct (c p) as [[a| | |] p']; simpl in *; eauto.
  destruct (Hk a p') as [rest' Hrest']. exists (rest ++ rest')%list.
  now rewrite Hrest', Hrest, app_assoc.
Qed.

Lemma extends_same {A : Type} (c : Run A) :
  (forall p, trace (snd (c p)) = trace p) -> extends_trace c.
Proof. intros H p. exists []. now rewrite H, app_nil_r. Qed.

Lemma extends_emit e : extends_trace (emit e).
Proof. intros p. now exists [e]. Qed.

Lemma extends_HasParam key : extends_trace (CMD_HasParam key).
Proof.
  apply extends_same. intros p. unfold CMD_HasParam.
  now destruct (HasParam _ _).
Qed.

Lemma extends_GetParam_string key : extends_trace (CMD_GetParam_string key).
Proof.
  apply extends_same. intros p. unfold CMD_GetParam_string.
  destruct (GetParam _ _) as [[]|]; reflexivity.
Qed.

Lemma extends_CheckRequired app ps :
  extends_trace (CheckRequired functionMap app ps).
Proof.
  apply extends_same. intros p.
  now rewrite (CheckRequired_process functionMap app ps p p).
Qed.

Lemma extends_Validate app :
  extends_trace (Validate functionMap GetVersion app).
Proof.
  unfold Validate, HandleMetaOptions.
  repeat first
    [ apply extends_bind; [|intros ?]
    | match goal with
      | |- extends_trace (if ?b then _ else _) => destruct b
      end
    | apply extends_emit
    | apply extends_HasParam
    | apply extends_GetParam_string
    | apply extends_CheckRequired
    | apply extends_same; intros ?; reflexivity ].
Qed.

Lemma zero_bind {A B : Type} (c : Run A) (k : A -> Run B) :
  exits_with_zero c -> (forall a, exits_with_zero (k a)) ->
  exits_with_zero (bind c k).
Proof.
  intros Hc Hk p code. unfold bind. specialize (Hc p).
  destruct (c p) as [[a| | |] p']; simpl in *; try discriminate.
  - apply Hk.
  - intros [= <-]. now apply Hc.
Qed.

Lemma zero_never {A : Type} (c : Run A) :
  (forall p code, fst (c p) <> Exited code) -> exits_with_zero c.
Proof. intros H p code He. now apply H in He. Qed.

Lemma zero_Validate app :
  exits_with_zero (Validate functionMap GetVersion app).
Proof.
  unfold Validate, HandleMetaOptions.
  repeat first
    [ apply zero_bind; [|intros ?]
    | match goal with
      | |- exits_with_zero (if ?b then _ else _) => destruct b
      end
    | solve [intros ? ? [= <-]; reflexivity]
    | solve [apply zero_never; intros ? ?;
             apply CheckRequired_never_exits]
    | solve [apply zero_never; intros p0 code0;
             unfold CMD_HasParam, CMD_GetParam_string, emit, modify,
               set_ignoreInput, gets, ret;
             repeat match goal with
                    | |- context [match ?x with _ => _ end] => destruct x
                    end; discriminate] ].
Qed.

(** X1: whatever the parser, the dispatch table and the command line are,
    and however the call ends, every parameter that was registered before
    the call is still registered under its key afterwards, with the same
    name, description, type, alias, required and input marks, value and C++
    type; only its "was passed" mark may differ, and a mark that was set
    stays set. *)
Theorem registered_parameters_survive argv p k d :
  StdMap.find k (parameters (registry p)) = Some d ->
  exists d',
    StdMap.find k
      (parameters
         (registry (snd (ParseCommandLine functionMap GetVersion argv p))))
    = Some d'
    /\ same_but_mark d d'
    /\ (wasPassed d = true -> wasPassed d' = true).
Proof.
  intros Hk.
  destruct (ParseCommandLine_registry functionMap GetVersion argv p)
    as [->|[app' ->]].
  - exists d. split; [exact Hk|]. apply marked_of_same_but_mark. now left.
  - destruct (Marked_spec functionMap app' p) as (_ & _ & Hf).
    destruct (Hf k d Hk) as (d' & Hk' & Hm).
    exists d'. split; [exact Hk'|]. now apply marked_of_same_but_mark.
Qed.

(** X2: however the call ends, the registry records that parsing took place
    ([didParse] is true), and its alias table and program name are what they
    were. *)
Theorem parsing_is_recorded argv p :
  let c := registry (snd (ParseCommandLine functionMap GetVersion argv p)) in
  didParse c = true
  /\ aliases c = aliases (registry p)
  /\ programName c = programName (registry p).
Proof.
  simpl.
  destruct (ParseCommandLine_registry functionMap GetVersion argv p)
    as [->|[app' ->]].
  - simpl. auto.
  - destruct (Marked_spec functionMap app' p) as (Ha & Hn & _).
    destruct (Marked_frame app' p) as (Hd & _ & _). auto.
Qed.

(** X3: when the parser rejects the command line, the call has written
    nothing on the output, has not touched the logging switch and has marked
    no parameter: apart from [didParse] the process is as it was. *)
Theorem parse_error_leaves_process argv p what :
  app_parse (fst (BuildOptions functionMap (parameters (registry p)))) argv
  = inr what ->
  let p' := snd (ParseCommandLine functionMap GetVersion argv p) in
  trace p' = trace p
  /\ Info_ignoreInput p' = Info_ignoreInput p
  /\ parameters (registry p') = parameters (registry p)
  /\ aliases (registry p') = aliases (registry p)
  /\ didParse (registry p') = true.
Proof.
  intros H. simpl. rewrite ParseCommandLine_unfold, H. simpl. auto.
Qed.

(** X4: the call never registers a parameter under a name of its own
    making: a key that is not empty, is not registered and is not the name
    of a registered parameter is still not registered afterwards, however
    the call ends. (The empty key is the one that the marking loop can
    create.) *)
Theorem no_parameter_is_invented argv p key :
  key <> "" ->
  ~ In key (map (fun it => name (snd it)) (parameters (registry p))) ->
  StdMap.find key (parameters (registry p)) = None ->
  StdMap.find key
    (parameters
       (registry (snd (ParseCommandLine functionMap GetVersion argv p))))
  = None.
Proof.
  intros Hkey Hnot Hp.
  destruct (ParseCommandLine_registry functionMap GetVersion argv p)
    as [->|[app' ->]].
  - exact Hp.
  - now apply Marked_absent.
Qed.

(** X5: when the call ends the process, the exit status is 0: no path of
    the function exits with a failure status. *)
Theorem exit_status_is_zero argv p code :
  fst (ParseCommandLine functionMap GetVersion argv p) = Exited code ->
  code = 0%Z.
Proof.
  rewrite ParseCommandLine_unfold.
  destruct (app_parse _ argv) as [app'|what]; [|discriminate].
  apply zero_Validate.
Qed.


(** X7: after a successful parse the first thing the call writes on the
    standard output is the size of the application followed by one line per
    option that the parser holds, in the parser's order, whether the option
    was supplied or not; everything else it writes comes after. *)
Theorem option_lines_are_printed argv p app' :
  app_parse (fst (BuildOptions functionMap (parameters (registry p)))) argv
  = inl app' ->
  exists rest,
    trace (snd (ParseCommandLine functionMap GetVersion argv p))
    = (trace p ++ option_lines app' ++ rest)%list.
Proof.
  intros Hparse. rewrite ParseCommandLine_unfold, Hparse.
  destruct (extends_Validate app' (Marked functionMap app' p)) as [rest Hrest].
  destruct (Marked_frame app' p) as (_ & _ & Ht).
  exists rest. now rewrite Hrest, Ht, app_assoc.
Qed.

(** The marking loop reads an option's name and nothing else of it, and of
    the process it reads the registry only. *)
Lemma MarkOptions_by_names options1 : forall options2 bm p1 p2,
  map get_name options1 = map get_name options2 ->
  registry p1 = registry p2 ->
  registry (MarkOptions options1 bm p1) = registry (MarkOptions options2 bm p2).
Proof.
  unfold MarkOptions.
  induction options1 as [|o1 options1 IH]; intros [|o2 options2] bm p1 p2 Hn Hr;
    try discriminate; simpl; [exact Hr|].
  injection Hn as Ho Hn.
  assert (Hstep : fst (MarkOption (bm, p1) o1) = fst (MarkOption (bm, p2) o2)
                  /\ registry (snd (MarkOption (bm, p1) o1))
                     = registry (snd (MarkOption (bm, p2) o2))).
  { unfold MarkOption. simpl. rewrite Ho.
    destruct (StdMap.index "" (get_name o2) bm) as [identifier bm'].
    rewrite Hr.
    destruct (StdMap.index ParamData_zero identifier (parameters (registry p2)))
      as [param ps].
    simpl. split; reflexivity. }
  destruct (MarkOption (bm, p1) o1) as [bm1 q1].
  destruct (MarkOption (bm, p2) o2) as [bm2 q2].
  simpl in Hstep. destruct Hstep as [-> Hq]. now apply IH.
Qed.

(** X19: which parameters the call marks as passed depends on the names of
    the options that the parser holds and on nothing else: two parses that
    answer the same option names leave the same registry, however often, or
    whether at all, each option was supplied. *)
Theorem marks_ignore_what_was_supplied app1 app2 p :
  map get_name (app_get_options app1) = map get_name (app_get_options app2) ->
  registry (Marked functionMap app1 p) = registry (Marked functionMap app2 p).
Proof.
  intros Hnames. unfold Marked. now apply MarkOptions_by_names.
Qed.
End General.

(** [DoubleParamTest]: the parameter [double] is kept as registered. *)
Lemma registered_parameters_survive_witness :
  exists d',
    StdMap.find "double"
      (parameters (registry (snd (run DoubleParamTest DoubleParamTest_argv))))
    = Some d'
    /\ same_but_mark (PARAM_DOUBLE_IN "double" "Test double" "d" (0 # 1)) d'
    /\ (wasPassed (PARAM_DOUBLE_IN "double" "Test double" "d" (0 # 1)) = true ->
        wasPassed d' = true).
Proof.
  exact (registered_parameters_survive
           (RefParser.functionMap RefParser.WithDashes) "mlpack"
           DoubleParamTest_argv (start DoubleParamTest) "double"
           (PARAM_DOUBLE_IN "double" "Test double" "d" (0 # 1)) eq_refl).
Defined.

(** [UnknownOptionTest]: nothing but [didParse] has changed. *)
Lemma parse_error_leaves_process_witness :
  trace (snd (run AddRequiredCMDOptions UnknownOptionTest_argv)) = []
  /\ Info_ignoreInput (snd (run AddRequiredCMDOptions UnknownOptionTest_argv))
     = true.
Proof.
  pose proof (parse_error_leaves_process
                (RefParser.functionMap RefParser.WithDashes) "mlpack"
                UnknownOptionTest_argv (start AddRequiredCMDOptions)
                "The following argument was not expected: --unknown"
                eq_refl) as (Ht & Hi & _).
  split; [exact Ht|exact Hi].
Defined.

(** [TestBooleanOption]: no parameter named [unknown] appears. *)
Lemma no_parameter_is_invented_witness :
  StdMap.find "unknown"
    (parameters (registry (snd (run TestBooleanOption TestBooleanOption_argv))))
  = None.
Proof.
  refine (no_parameter_is_invented
            (RefParser.functionMap RefParser.WithDashes) "mlpack"
            TestBooleanOption_argv (start TestBooleanOption) "unknown"
            _ _ eq_refl).
  - discriminate.
  - simpl. intros H.
    repeat match goal with
           | H : _ \/ _ |- _ => destruct H as [H|H]; [discriminate H|]
           end.
    exact H.
Defined.

(** The [version] exit has status 0. *)
Lemma exit_status_is_zero_witness :
  fst (ParseCommandLine (RefParser.functionMap RefParser.WithDashes) "mlpack"
         ["./test"] version_and_help_passed) = Exited 0
  /\ (0 = 0)%Z.
Proof.
  split; [reflexivity|].
  exact (exit_status_is_zero (RefParser.functionMap RefParser.WithDashes)
           "mlpack" ["./test"] version_and_help_passed 0 eq_refl).
Defined.


(** [TestBooleanOption]: five option lines, four of them for options that
    were not supplied. *)
Lemma option_lines_are_printed_witness :
  exists rest,
    trace (snd (run TestBooleanOption TestBooleanOption_argv))
    = ([CoutAppSize 1; CoutOption "--flag_test"; CoutOption "--help";
        CoutOption "--info"; CoutOption "--verbose"; CoutOption "--version"]
       ++ rest)%list.
Proof.
  exact (option_lines_are_printed
           (RefParser.functionMap RefParser.WithDashes) "mlpack"
           TestBooleanOption_argv (start TestBooleanOption)
           (RefParser.store "flag_test" "true" (built TestBooleanOption))
           eq_refl).
Defined.

(** [TestBooleanOption]: with [--flag_test] supplied and with nothing
    supplied the registry ends up the same. *)
Lemma marks_ignore_what_was_supplied_witness :
  RefParser.count (built TestBooleanOption) "flag_test" = Some 0%nat
  /\ RefParser.count (RefParser.store "flag_test" "true" (built TestBooleanOption))
       "flag_test" = Some 1%nat
  /\ registry (Marked (RefParser.functionMap RefParser.WithDashes)
                 (built TestBooleanOption) (start TestBooleanOption))
     = registry (Marked (RefParser.functionMap RefParser.WithDashes)
                   (RefParser.store "flag_test" "true" (built TestBooleanOption))
                   (start TestBooleanOption)).
Proof.
  split; [reflexivity|]. split; [reflexivity|].
  exact (marks_ignore_what_was_supplied
           (RefParser.functionMap RefParser.WithDashes)
           (built TestBooleanOption)
           (RefParser.store "flag_test" "true" (built TestBooleanOption))
           (start TestBooleanOption) eq_refl).
Defined.

End CmdLineExtra.

(** * The command line and the branch that the binding takes *)

Module CmdLineDefects.
Import CmdLine StdMapFacts CmdLineFacts CmdLineExtra.
Local Open Scope run_scope.

Section General.
Context {P : Parser}.
Variable functionMap : string -> TypeOps P.
Variable GetVersion : string.

(** Line 138 with [version] marked. *)
Lemma Validate_version app q :
  HasParam (registry q) "version" = Some true ->
  fst (Validate functionMap GetVersion app q) = Exited 0
  /\ trace (snd (Validate functionMap GetVersion app q))
     = (trace q ++ [CoutVersion (programName (registry q)) GetVersion])%list.
Proof.
  intros Hv. unfold Validate, HandleMetaOptions. run_step. rewrite Hv.
  simpl. now split.
Qed.

(** Line 146 with [help] unknown to the registry. *)
Lemma Validate_unknown_help app q :
  HasParam (registry q) "version" = Some false ->
  HasParam (registry q) "help" = None ->
  fst (Validate functionMap GetVersion app q)
  = FatalError (UnknownParameter "help").
Proof.
  intros Hv Hh. unfold Validate, HandleMetaOptions. run_step. rewrite Hv.
  simpl. now rewrite Hh.
Qed.

(** With [version] registered and [help] unknown, no call gets past
    line 146. *)
Lemma unknown_help_ends_the_call argv p d :
  StdMap.find "help" (aliases (registry p)) = None ->
  StdMap.find "version" (aliases (registry p)) = None ->
  StdMap.find "help" (parameters (registry p)) = None ->
  ~ In "help" (map (fun it => name (snd it)) (parameters (registry p))) ->
  StdMap.find "version" (parameters (registry p)) = Some d ->
  let r := ParseCommandLine functionMap GetVersion argv p in
  (exists what, fst r = FatalError (ParseException what))
  \/ (fst r = Exited 0
      /\ exists tr,
           trace (snd r)
           = (tr ++ [CoutVersion (programName (registry p)) GetVersion])%list)
  \/ fst r = FatalError (UnknownParameter "help").
Proof.
  intros Hah Hav Hh Hnot Hv r. subst r.
  rewrite ParseCommandLine_unfold.
  destruct (app_parse _ argv) as [app'|what]; [right|left; now exists what].
  set (q := Marked functionMap app' p).
  destruct (Marked_spec functionMap app' p) as (Ha & Hn & Hf).
  fold q in Ha, Hn, Hf.
  assert (Hhelp : HasParam (registry q) "help" = None).
  { unfold HasParam, resolve. rewrite Ha, Hah.
    unfold q. rewrite Marked_absent; [reflexivity|discriminate|exact Hnot|exact Hh]. }
  assert (Hversion : exists b, HasParam (registry q) "version" = Some b).
  { unfold HasParam, resolve. rewrite Ha, Hav.
    destruct (Hf "version" d Hv) as (d' & Hd & _). rewrite Hd. simpl. eauto. }
  destruct Hversion as [[|] Hversion].
  - left. destruct (Validate_version app' q Hversion) as [Ho Ht].
    split; [exact Ho|]. rewrite Ht, Hn. eauto.
  - right. now apply Validate_unknown_help.
Qed.
End General.

(** The reference parser stores results and changes no name. *)
Lemma store_names ln v app :
  map RefParser.lname (RefParser.store ln v app) = map RefParser.lname app.
Proof.
  induction app as [|o app IH]; simpl; [reflexivity|].
  destruct (String.eqb ln (RefParser.lname o)); simpl; [reflexivity|].
  now rewrite IH.
Qed.

Lemma parse_tokens_names toks : forall cur app app',
  RefParser.parse_tokens toks cur app = inl app' ->
  map RefParser.lname app' = map RefParser.lname app.
Proof.
  induction toks as [|tok toks IH]; intros cur app app' H; simpl in H.
  - destruct cur as [[ln [|]]|]; try discriminate; now injection H as <-.
  - destruct (RefParser.is_option_token tok).
    + destruct cur as [[ln [|]]|]; try discriminate;
        (destruct (RefParser.lookup tok app) as [o|]; [|discriminate]);
        destruct (RefParser.arity o);
        apply IH in H; rewrite ?store_names in H; exact H.
    + destruct cur as [[ln [|]]|]; try discriminate;
        apply IH in H; rewrite ?store_names in H; exact H.
Qed.

Lemma parse_names app argv app' :
  RefParser.parse app argv = inl app' ->
  map RefParser.lname app' = map RefParser.lname app.
Proof.
  unfold RefParser.parse.
  destruct (RefParser.parse_tokens (tl argv) None app) as [app1|what] eqn:E;
    [|discriminate].
  destruct (RefParser.first_overfull app1); [discriminate|].
  intros [= <-]. now apply parse_tokens_names in E.
Qed.

(** On the reference parser the marks that the loop leaves are those of the
    option definitions, whatever the command line is. *)
Lemma parsed_marks naming ds argv app' :
  RefParser.parse
    (fst (BuildOptions (RefParser.functionMap naming)
            (parameters (registry (start ds))))) argv = inl app' ->
  registry (Marked (RefParser.functionMap naming) app' (start ds))
  = registry (Marked (RefParser.functionMap naming)
                (fst (BuildOptions (RefParser.functionMap naming)
                        (parameters (registry (start ds)))))
                (start ds)).
Proof.
  intros Hparse. apply parse_names in Hparse. unfold Marked.
  apply MarkOptions_by_names; [|reflexivity].
  simpl. unfold RefParser.reported_name.
  destruct naming.
  - rewrite <- (map_map RefParser.lname (fun s => "--" ++ s)), Hparse.
    now rewrite map_map.
  - exact Hparse.
Qed.

(** The test suite's registry on the reference parser: no command line
    reaches an exit. *)
Lemma dashed_names_reach_no_exit argv :
  let r := run AddRequiredCMDOptions argv in
  (exists what, fst r = FatalError (ParseException what))
  \/ fst r = Returned tt.
Proof.
  intros r. subst r. unfold run. rewrite ParseCommandLine_unfold.
  destruct (app_parse _ argv) as [app'|what] eqn:Hparse;
    [right|left; now exists what].
  pose proof (parsed_marks RefParser.WithDashes AddRequiredCMDOptions argv
                app' Hparse) as Hreg.
  match type of Hreg with
  | _ = ?rhs => let v := eval vm_compute in rhs in change rhs with v in Hreg
  end.
  rewrite (Validate_without_meta_options
             (RefParser.functionMap RefParser.WithDashes) "mlpack" app' _ false);
    try (rewrite Hreg; reflexivity).
Qed.

(** With names reported without dashes every registry that holds [version]
    ends every call at line 142. *)
Lemma bare_names_reach_the_version_exit ds argv :
  HasParam
    (registry (Marked (RefParser.functionMap RefParser.Bare)
                 (fst (BuildOptions (RefParser.functionMap RefParser.Bare)
                         (parameters (registry (start ds)))))
                 (start ds)))
    "version" = Some true ->
  let r := run_bare ds argv in
  (exists what, fst r = FatalError (ParseException what))
  \/ (fst r = Exited 0
      /\ exists tr,
           trace (snd r)
           = (tr ++ [CoutVersion (programName (registry (start ds)))
                                 "mlpack"])%list).
Proof.
  intros Hv r. subst r. unfold run_bare. rewrite ParseCommandLine_unfold.
  destruct (app_parse _ argv) as [app'|what] eqn:Hparse;
    [right|left; now exists what].
  rewrite <- (parsed_marks RefParser.Bare ds argv app' Hparse) in Hv.
  destruct (Validate_version (RefParser.functionMap RefParser.Bare) "mlpack"
              app' _ Hv) as [Ho Ht].
  split; [exact Ho|]. rewrite Ht.
  destruct (Marked_spec (RefParser.functionMap RefParser.Bare) app' (start ds))
    as (_ & -> & _).
  eauto.
Qed.

(** C4: the claim is that a required parameter that is absent from the
    command line always ends the call in the fatal error that names it, and
    that the call passes validation when the parameter is present. On the
    code the required-options loop (lines 182-199) is reached only when the
    marks that the loop at lines 115-123 leaves let control through lines
    138-170. With the header's own registrations and a required [double],
    [help] is unknown to the registry: for every parser, dispatch table and
    command line the call ends in the relayed parser error, in the
    [version] exit or in the fatal error that [help] is an unknown
    parameter, hence never in the error that names [double]; on the
    reference parser, which counts [double] zero times, that is the outcome
    with [double] absent and with [double] present alike. With the test
    suite's registry and names reported without dashes every call that
    parses exits at the [version] check, [double] absent or present. *)
Theorem required_option_is_not_reported :
  (forall (P : Parser) (functionMap : string -> TypeOps P)
     (GetVersion : string) (argv : list string),
      let r := ParseCommandLine functionMap GetVersion argv
                 (start header_with_required) in
      (exists what, fst r = FatalError (ParseException what))
      \/ (fst r = Exited 0
          /\ exists tr,
               trace (snd r) = (tr ++ [CoutVersion "test" GetVersion])%list)
      \/ fst r = FatalError (UnknownParameter "help"))
  /\ GetParam (registry (start header_with_required)) "double"
     = Some (ADouble (0 # 1))
  /\ StdMap.find "double" (parameters (registry (start header_with_required)))
     = Some (PARAM_DOUBLE_IN_REQ "double" "Required test double" "d")
  /\ RefParser.parse (built header_with_required) ["./program"]
     = inl (built header_with_required)
  /\ RefParser.count (built header_with_required) "double" = Some 0%nat
  /\ fst (run header_with_required ["./program"])
     = FatalError (UnknownParameter "help")
  /\ fst (run header_with_required ["./program"; "--double"; "3.12"])
     = FatalError (UnknownParameter "help")
  /\ (forall argv : list string,
        let r := run_bare RequiredOptionTest argv in
        (exists what, fst r = FatalError (ParseException what))
        \/ (fst r = Exited 0
            /\ exists tr,
                 trace (snd r) = (tr ++ [CoutVersion "test" "mlpack"])%list))
  /\ fst (run_bare RequiredOptionTest ["./test"]) = Exited 0
  /\ fst (run_bare RequiredOptionTest ["./test"; "--double"; "3.12"])
     = Exited 0.
Proof.
  split; [|repeat split].
  - intros P functionMap GetVersion argv.
    apply (unknown_help_ends_the_call functionMap GetVersion argv
             (start header_with_required)
             (PARAM_FLAG "version" "Display the version of mlpack." ""));
      try reflexivity.
    simpl. intros [H|[H|[H|[H|[]]]]]; discriminate H.
  - intros argv.
    exact (bare_names_reach_the_version_exit RequiredOptionTest argv eq_refl).
Qed.

(** C5: the claim is that [version], [help] and [info] are acted on, in
    that order, when they were passed. On the code lines 138-170 read the
    marks that the loop at lines 115-123 leaves, and those do not follow
    the command line. With the test suite's registry on the reference
    parser, [--version --help] is parsed, each option counted once, and
    the call returns having printed neither the version nor any help; no
    command line whatsoever reaches one of the three exits. With names
    reported without dashes every command line that parses ends in the
    [version] exit: [--help] alone prints the version and no help, and so
    does [--info verbose]. *)
Theorem meta_options_are_not_reached :
  RefParser.parse (built AddRequiredCMDOptions) version_and_help_argv
  = inl version_and_help_parsed
  /\ RefParser.count version_and_help_parsed "version" = Some 1%nat
  /\ RefParser.count version_and_help_parsed "help" = Some 1%nat
  /\ fst (run AddRequiredCMDOptions version_and_help_argv) = Returned tt
  /\ trace (snd (run AddRequiredCMDOptions version_and_help_argv))
     = [CoutAppSize 2; CoutOption "--help"; CoutOption "--info";
        CoutOption "--verbose"; CoutOption "--version";
        LogDebug "Compiled with debugging symbols."]
  /\ fst (run AddRequiredCMDOptions ["./test"; "--help"]) = Returned tt
  /\ fst (run AddRequiredCMDOptions ["./test"; "--info"; "verbose"])
     = Returned tt
  /\ (forall argv : list string,
        let r := run AddRequiredCMDOptions argv in
        (exists what, fst r = FatalError (ParseException what))
        \/ fst r = Returned tt)
  /\ fst (run_bare AddRequiredCMDOptions ["./test"; "--help"]) = Exited 0
  /\ trace (snd (run_bare AddRequiredCMDOptions ["./test"; "--help"]))
     = [CoutAppSize 1; CoutOption "help"; CoutOption "info";
        CoutOption "verbose"; CoutOption "version";
        CoutVersion "test" "mlpack"]
  /\ trace (snd (run_bare AddRequiredCMDOptions ["./test"; "--info"; "verbose"]))
     = [CoutAppSize 1; CoutOption "help"; CoutOption "info";
        CoutOption "verbose"; CoutOption "version";
        CoutVersion "test" "mlpack"]
  /\ (forall argv : list string,
        let r := run_bare AddRequiredCMDOptions argv in
        (exists what, fst r = FatalError (ParseException what))
        \/ (fst r = Exited 0
            /\ exists tr,
                 trace (snd r) = (tr ++ [CoutVersion "test" "mlpack"])%list)).
Proof.
  repeat split.
  - exact dashed_names_reach_no_exit.
  - intros argv.
    exact (bare_names_reach_the_version_exit AddRequiredCMDOptions argv
             eq_refl).
Qed.

End CmdLineDefects.

(** * Further properties of the image resizing *)

Module ImageResizeExtra.
Import Arma ImageResize ImageResizeFacts ImageResizeNotions.
Local Open Scope Z_scope.

Section General.
Variable elem : Type.
Variable stbir_resize_uint8_linear :
  list elem -> Z -> Z -> Z -> Z -> stbir_pixel_layout -> list elem.

Let Resize := ResizeImages elem stbir_resize_uint8_linear.
Let loop := resize_loop elem stbir_resize_uint8_linear.
Let column_of := resized_column elem stbir_resize_uint8_linear.

Lemma dimension_check_rows images info :
  dimension_check elem images info = None
  <-> n_rows images
      = size_mul (size_mul (Width info) (Height info)) (Channels info).
Proof.
  unfold dimension_check, n_elem.
  destruct (Z.eqb_spec (n_cols images) 1) as [->|_].
  - rewrite Z.mul_1_r.
    destruct (Z.eqb_spec (n_rows images)
                (size_mul (size_mul (Width info) (Height info)) (Channels info)));
      simpl; split; congruence.
  - destruct (Z.eqb_spec (n_rows images)
                (size_mul (size_mul (Width info) (Height info)) (Channels info)));
      simpl; split; congruence.
Qed.

Lemma layout_of_None info :
  layout_of info = None <-> Channels info <> 1 /\ Channels info <> 3.
Proof.
  unfold layout_of.
  destruct (Z.eqb_spec (Channels info) 1), (Z.eqb_spec (Channels info) 3);
    split; try discriminate; try tauto; intros [? ?]; contradiction.
Qed.

Lemma replace_nth_app {A : Type} (pre : list A) x y rest :
  replace_nth (List.length pre) x (pre ++ y :: rest) = (pre ++ x :: rest)%list.
Proof.
  induction pre as [|z pre IH]; simpl; [reflexivity|]. now rewrite IH.
Qed.

Lemma map_nth_seq {A B : Type} (f : A -> B) (d : A) (l : list A) :
  map (fun i => f (nth i l d)) (seq 0 (List.length l)) = map f l.
Proof.
  induction l as [|x l IH]; simpl; [reflexivity|].
  now rewrite <- seq_shift, map_map, IH.
Qed.

(** The loop writes into column [i] of the result what the resampler gives
    for column [i] of the images. *)
Lemma loop_columns eT images info nw nh layout len :
  forall s pre rest acc,
    columns acc = (pre ++ rest)%list ->
    List.length pre = s -> List.length rest = len ->
    exists acc',
      loop eT images info nw nh (Some layout) (seq s len) acc = Some acc'
      /\ n_rows acc' = n_rows acc
      /\ columns acc'
         = (pre ++ map (fun i => column_of info nw nh layout (colptr images i))
                       (seq s len))%list.
Proof.
  unfold loop, column_of.
  induction len as [|len IH]; intros s pre rest acc Hcols Hpre Hrest; simpl.
  - exists acc. destruct rest; [|discriminate].
    repeat split. now rewrite Hcols.
  - destruct rest as [|r0 rest]; [discriminate|].
    injection Hrest as Hrest.
    set (acc1 := resize_column elem stbir_resize_uint8_linear eT images info
                   nw nh layout s acc).
    assert (Hacc1 : n_rows acc1 = n_rows acc
                    /\ columns acc1
                       = ((pre ++ [resized_column elem
                                     stbir_resize_uint8_linear info nw nh
                                     layout (colptr images s)]) ++ rest)%list).
    { unfold acc1, resize_column, set_col, resized_column.
      destruct eT; simpl.
      rewrite Hcols, <- Hpre, replace_nth_app, <- app_assoc.
      split; reflexivity. }
    destruct Hacc1 as [Hr1 Hc1].
    destruct (IH (S s) _ rest acc1 Hc1) as (acc' & Hrun & Hr & Hc).
    + rewrite length_app. simpl. lia.
    + exact Hrest.
    + exists acc'. split; [exact Hrun|]. split; [congruence|].
      rewrite Hc, <- app_assoc. reflexivity.
Qed.

(** X8: the dimension check looks at the number of rows only. Whatever the
    number of columns is, the call fails with a dimension mismatch exactly
    when the number of rows differs from [Width * Height * Channels]
    (computed in [size_t]); the number of columns only selects the message:
    the one about "the number of pixels" for exactly one column, the one
    about "several images" otherwise. *)
Theorem dimension_check_counts_rows eT images info newWidth newHeight :
  let pixels :=
    size_mul (size_mul (Width info) (Height info)) (Channels info) in
  (n_rows images <> pixels ->
   Resize eT images info newWidth newHeight
   = Fatal (if n_cols images =? 1 then one_image_mismatch
            else several_images_mismatch))
  /\ (n_rows images = pixels ->
      forall message,
        Resize eT images info newWidth newHeight <> Fatal message).
Proof.
  simpl. unfold Resize, ResizeImages. split.
  - intros Hne.
    assert (Hc : dimension_check elem images info <> None)
      by (intros Hc; now apply dimension_check_rows in Hc).
    unfold dimension_check, n_elem in *.
    destruct (Z.eqb_spec (n_cols images) 1) as [Heq|_].
    + rewrite Heq, Z.mul_1_r in *.
      destruct (negb (n_rows images =? _)); [reflexivity|contradiction].
    + destruct (negb (n_rows images =? _)); [reflexivity|contradiction].
  - intros Heq message. apply dimension_check_rows in Heq. rewrite Heq.
    destruct (resize_loop _ _ _ _ _ _ _ _ _ _); discriminate.
Qed.

(** X9: with no column at all, a call on [unsigned char] elements that
    passes the dimension check succeeds for every number of channels: the
    resampler is never called, the pixel layout is never read, and the
    result has [newWidth * newHeight * Channels] rows and no column. *)
Theorem no_image_is_resized images info newWidth newHeight :
  columns images = [] ->
  n_rows images
  = size_mul (size_mul (Width info) (Height info)) (Channels info) ->
  Resize UnsignedChar images info newWidth newHeight
  = Resized
      (mkMat (size_mul (size_mul newWidth newHeight) (Channels info)) [])
      (mkImageInfo newWidth newHeight (Channels info)).
Proof.
  intros Hcols Hrows. apply dimension_check_rows in Hrows.
  unfold Resize, ResizeImages. rewrite Hrows, Hcols. reflexivity.
Qed.

(** X10: on [unsigned char] elements with one or three channels, a call
    that passes the dimension check resizes every image on its own: the
    result has [newWidth * newHeight * Channels] rows and, column by column
    and in the same order, what the byte resampler gives for that column
    with the old and the new sizes and the layout of the channel count; the
    image information holds the new width and height and the old channel
    count. *)
Theorem every_column_is_resized images info newWidth newHeight layout :
  n_rows images
  = size_mul (size_mul (Width info) (Height info)) (Channels info) ->
  layout_of info = Some layout ->
  Resize UnsignedChar images info newWidth newHeight
  = Resized
      (mkMat (size_mul (size_mul newWidth newHeight) (Channels info))
             (map (column_of info newWidth newHeight layout)
                  (columns images)))
      (mkImageInfo newWidth newHeight (Channels info)).
Proof.
  intros Hrows Hlayout. apply dimension_check_rows in Hrows.
  unfold Resize, ResizeImages. rewrite Hrows, Hlayout.
  destruct (loop_columns UnsignedChar images info newWidth newHeight layout
              (List.length (columns images)) 0%nat []
              (repeat [] (List.length (columns images)))
              (set_size (size_mul (size_mul newWidth newHeight) (Channels info))
                        (List.length (columns images)))
              eq_refl eq_refl (repeat_length _ _))
    as (m & Hrun & Hr & Hc).
  unfold loop in Hrun. rewrite Hrun. simpl in Hr, Hc.
  unfold column_of, resized_column, colptr in *.
  f_equal. destruct m as [r cs]. simpl in *. subst r cs. f_equal.
  apply (map_nth_seq
           (fun column =>
              stbir_resize_uint8_linear column (Width info) (Height info)
                newWidth newHeight layout) []).
Qed.

(** X11: a call on [unsigned char] elements reads the pixel layout without
    its having been assigned exactly when it passes the dimension check,
    the number of channels is neither 1 nor 3, and there is at least one
    column. *)
Theorem layout_is_read_unassigned images info newWidth newHeight :
  Resize UnsignedChar images info newWidth newHeight = IndeterminateLayout
  <-> n_rows images
      = size_mul (size_mul (Width info) (Height info)) (Channels info)
      /\ Channels info <> 1 /\ Channels info <> 3
      /\ columns images <> [].
Proof.
  unfold Resize, ResizeImages. rewrite <- dimension_check_rows.
  rewrite <- (and_assoc (Channels info <> 1)), <- layout_of_None.
  destruct (dimension_check elem images info) as [message|].
  - split; [discriminate|]. intros [H _]. discriminate H.
  - destruct (layout_of info) as [layout|].
    + match goal with
      | |- context [resize_loop _ _ ?e ?im ?inf ?w ?h _ ?ix ?acc] =>
          destruct (resize_loop_runs elem stbir_resize_uint8_linear
                      e im inf w h layout ix acc) as [m Hrun]
      end.
      rewrite Hrun. split; [discriminate|]. intros (_ & H & _).
      discriminate H.
    + destruct (columns images) as [|c cs]; simpl.
      * split; [discriminate|]. intros (_ & _ & H). now contradiction H.
      * split; [|reflexivity]. intros _. repeat split. discriminate.
Qed.
End General.

(** Two gray images with a declared size of 3 x 3: the mismatch is reported
    with the message for several images. *)
Lemma dimension_check_counts_rows_witness :
  ResizeImages Z constant_resize UnsignedChar two_gray_images
    (mkImageInfo 3 3 1) 1 1
  = Fatal several_images_mismatch.
Proof.
  refine (proj1 (dimension_check_counts_rows Z constant_resize UnsignedChar
                   two_gray_images (mkImageInfo 3 3 1) 1 1) _).
  vm_compute. discriminate.
Defined.

(** No image, four channels: the call succeeds. *)
Lemma no_image_is_resized_witness :
  ResizeImages Z constant_resize UnsignedChar no_image rgba_1x1 2 2
  = Resized (mkMat 16 []) (mkImageInfo 2 2 4).
Proof.
  exact (no_image_is_resized Z constant_resize no_image rgba_1x1 2 2
           eq_refl eq_refl).
Defined.

(** Two gray 2 x 2 images resized to 1 x 1: one pixel each, in order. *)
Lemma every_column_is_resized_witness :
  ResizeImages Z constant_resize UnsignedChar two_gray_images gray_2x2 1 1
  = Resized (mkMat 1 [[10]; [50]]) (mkImageInfo 1 1 1).
Proof.
  exact (every_column_is_resized Z constant_resize two_gray_images gray_2x2
           1 1 STBIR_1CHANNEL eq_refl eq_refl).
Defined.

(** Two images with two channels each: the layout is read unassigned. *)
Lemma layout_is_read_unassigned_witness :
  ResizeImages Z constant_resize UnsignedChar two_gray_alpha_images
    gray_alpha_2x1 1 1
  = IndeterminateLayout.
Proof.
  apply (proj2 (layout_is_read_unassigned Z constant_resize
                  two_gray_alpha_images gray_alpha_2x1 1 1)).
  repeat split; discriminate.
Defined.

End ImageResizeExtra.

(** * Further properties of the prediction driver *)

Module LinRegPredictExtra.
Import Arma LinRegPredict LinRegPredictFacts LinRegPredictNotions.
Local Open Scope Z_scope.

(** X12: when the binding succeeds, the test matrix has been moved out of the
    parameters, where an empty matrix is left; the model, the "was passed"
    marks and the printable form of the test matrix are what they were; and
    the predictions that were stored before play no role in the ones that
    are stored now. *)
Theorem success_consumes_the_test_matrix params params' timers :
  BINDING_FUNCTION params = Done params' timers ->
  test params' = Arma.empty
  /\ input_model params' = input_model params
  /\ input_model_passed params' = true /\ test_passed params' = true
  /\ test_printable params' = test_printable params
  /\ forall previous,
       BINDING_FUNCTION
         (mkParams (input_model_passed params) (input_model params)
                   (test_passed params) (test params) (test_printable params)
                   previous)
       = Done params' timers.
Proof.
  unfold BINDING_FUNCTION, RequireOnlyOnePassed.
  destruct (input_model_passed params) eqn:Em; [|discriminate].
  destruct (test_passed params) eqn:Et; [|discriminate]. simpl.
  destruct (negb (size_sub _ 1 =? n_rows (test params))) eqn:Ed;
    [discriminate|].
  intros [= <- <-]. simpl. repeat split; auto.
Qed.

(** X13: a model without any coefficient is never applied. The dimension
    that the check computes, the number of coefficients minus one in
    unsigned arithmetic, wraps around to [2^64 - 1]; so for every test
    matrix (of fewer rows than that) the binding fails, and the dimension it
    reports for the model is 18446744073709551615. *)
Theorem untrained_model_reports_wrapped_dimension params :
  Parameters (input_model params) = [] ->
  input_model_passed params = true -> test_passed params = true ->
  0 <= n_rows (test params) < 2 ^ 64 - 1 ->
  exists timers,
    BINDING_FUNCTION params
    = Fatal (WrongDimension 18446744073709551615 (test_printable params)
                            (n_rows (test params)))
            timers.
Proof.
  intros Hb Hm Ht Hrows.
  assert (Hne : (18446744073709551615 =? n_rows (test params)) = false)
    by (apply Z.eqb_neq; lia).
  unfold BINDING_FUNCTION, RequireOnlyOnePassed.
  rewrite Hm, Ht. cbv zeta. rewrite Hb.
  change (size_sub (Z.of_nat (List.length (@nil Q))) 1)
    with 18446744073709551615.
  rewrite Hne. simpl. eexists. reflexivity.
Qed.

(** Three test points: the test matrix is consumed. *)
Lemma success_consumes_the_test_matrix_witness :
  exists params' timers,
    BINDING_FUNCTION params_three_points = Done params' timers
    /\ test params' = Arma.empty
    /\ input_model params' = input_model params_three_points.
Proof.
  eexists. eexists. split; [reflexivity|].
  pose proof (success_consumes_the_test_matrix params_three_points _ _ eq_refl)
    as (Ht & Hm & _).
  split; [exact Ht|exact Hm].
Defined.

(** A model without coefficients and a test matrix of two rows. *)
Lemma untrained_model_reports_wrapped_dimension_witness :
  exists timers,
    BINDING_FUNCTION params_untrained
    = Fatal (WrongDimension 18446744073709551615 "X_test.csv" 2) timers.
Proof.
  assert (Hrows : 0 <= n_rows (test params_untrained) < 2 ^ 64 - 1)
    by (simpl; lia).
  exact (untrained_model_reports_wrapped_dimension params_untrained
           eq_refl eq_refl eq_refl Hrows).
Defined.

End LinRegPredictExtra.

